(** * Travel_Itinerary: the itinerary generator and the image resolver

    A shallow embedding of
      - [src/services/gemini.js]   ([generateItinerary]),
      - [src/services/unsplash.js] ([getPlaceImage]),
      - the [useImageCache] hook of [src/components/Sidebar.js] ([getOrFetch]),
    together with the parts of the JavaScript host they rely on: strings of
    UTF-16 code units, [JSON.parse], property reads, truthiness, [typeof]
    and [encodeURIComponent]. *)

From Stdlib Require Import ZArith NArith List String Ascii Bool Lia DecimalString.
From stdpp Require Import gmap list.

Local Open Scope Z_scope.

(** ** JavaScript strings

    A JavaScript string is a sequence of UTF-16 code units. *)

Abbreviation jsstring := (list N).

Module JsString.

(** [u "text"] is the JavaScript string with the same (ASCII) characters. *)
Definition u (s : string) : jsstring := map N_of_ascii (list_ascii_of_string s).

(** The code unit of the double quote. *)
Definition dquote : N := 34%N.

(** The code units of '[', of ']' and of the backquote. *)
Abbreviation lbracket := (91%N).
Abbreviation rbracket := (93%N).
Abbreviation backquote := (96%N).

(** [q "text"] is [u "text"] with a double quote wherever the text has an
    apostrophe: a way to write down JavaScript strings that hold double
    quotes. *)
Definition q (s : string) : jsstring :=
  map (fun c => if (c =? 39)%N then dquote else c) (u s).

(** [`${n}`] for an integer [n] of magnitude below [10 ^ 21], which
    JavaScript writes in decimal digits; from there on it writes an
    exponent, which this does not. *)
Definition of_Z (n : Z) : jsstring := u (NilZero.string_of_int (Z.to_int n)).

(** [`${n}`] for an array index or length. *)
Definition of_nat (n : nat) : jsstring := of_Z (Z.of_nat n).

(** WhiteSpace and LineTerminator code units: what [String.prototype.trim]
    strips and what [\s] matches. *)
Definition is_space (c : N) : bool :=
  ((9 <=? c) && (c <=? 13) || (c =? 32) || (c =? 160) || (c =? 5760)
   || (8192 <=? c) && (c <=? 8202) || (c =? 8232) || (c =? 8233)
   || (c =? 8239) || (c =? 8287) || (c =? 12288) || (c =? 65279))%N.

Fixpoint dropWhile {A} (p : A -> bool) (s : list A) : list A :=
  match s with
  | [] => []
  | c :: r => if p c then dropWhile p r else s
  end.

Definition trimStart (s : jsstring) : jsstring := dropWhile is_space s.
Definition trimEnd (s : jsstring) : jsstring := rev (dropWhile is_space (rev s)).

(** [s.trim()] *)
Definition trim (s : jsstring) : jsstring := trimEnd (trimStart s).

Fixpoint startsWith (pat s : jsstring) : bool :=
  match pat, s with
  | [], _ => true
  | _ :: _, [] => false
  | p :: pat', c :: s' => (p =? c)%N && startsWith pat' s'
  end.

(** [s.includes(pat)] *)
Fixpoint includes (pat s : jsstring) : bool :=
  startsWith pat s ||
  match s with
  | [] => false
  | _ :: r => includes pat r
  end.

(** [s.replace(/<pat>\s*/g, "")] for a literal, non-empty [pat]: every match
    of [pat] followed by the longest run of white space is deleted, the
    matches being found from left to right and never overlapping.

    [skip] counts the code units of the current match of [pat] still to be
    deleted; [spaces] says that the scan stands right after a match of
    [pat], inside its [\s*]. *)
Fixpoint replace_scan (pat : jsstring) (skip : nat) (spaces : bool) (s : jsstring)
  : jsstring :=
  match s with
  | [] => []
  | c :: r =>
      match skip with
      | S k => replace_scan pat k true r
      | O =>
          if spaces && is_space c then replace_scan pat O true r
          else if startsWith pat s then replace_scan pat (Nat.pred (length pat)) true r
          else c :: replace_scan pat O false r
      end
  end.

Definition remove_all (pat : jsstring) (s : jsstring) : jsstring :=
  replace_scan pat O false s.

Fixpoint index_from (c : N) (s : jsstring) (i : Z) : Z :=
  match s with
  | [] => -1
  | d :: r => if (d =? c)%N then i else index_from c r (i + 1)
  end.

(** [s.indexOf(c)] for a one-unit string [c] *)
Definition indexOf (c : N) (s : jsstring) : Z := index_from c s 0.

Fixpoint last_index_from (c : N) (s : jsstring) (i : Z) (found : Z) : Z :=
  match s with
  | [] => found
  | d :: r => last_index_from c r (i + 1) (if (d =? c)%N then i else found)
  end.

(** [s.lastIndexOf(c)] for a one-unit string [c] *)
Definition lastIndexOf (c : N) (s : jsstring) : Z := last_index_from c s 0 (-1).

(** [s.substring(from, to)]: both ends are clamped to [0 .. s.length] and
    swapped when [from > to]. *)
Definition substring (s : jsstring) (from to : Z) : jsstring :=
  let len := Z.of_nat (length s) in
  let a := Z.min (Z.max from 0) len in
  let b := Z.min (Z.max to 0) len in
  let lo := Z.min a b in
  let hi := Z.max a b in
  take (Z.to_nat (hi - lo)) (drop (Z.to_nat lo) s).

(** The match of [/\[[\s\S]*\]/] anchored at the head of [s]: a '[' and then
    the longest run of arbitrary code units that still ends in a ']'. *)
Definition match_array_here (s : jsstring) : option jsstring :=
  match s with
  | c :: r =>
      if (c =? lbracket)%N then
        let j := lastIndexOf rbracket r in
        if j =? -1 then None else Some (c :: take (Z.to_nat (j + 1)) r)
      else None
  | [] => None
  end.

(** [s.match(/\[[\s\S]*\]/)]: the match at the leftmost position that has
    one ([jsonMatch[0]]), or [None] for [null]. *)
Fixpoint match_array (s : jsstring) : option jsstring :=
  match match_array_here s with
  | Some m => Some m
  | None =>
      match s with
      | [] => None
      | _ :: r => match_array r
      end
  end.

End JsString.

Import JsString.

(** ** Exceptions and completions *)

Inductive error_name := Error | TypeError | SyntaxError | URIError.

(** A thrown [Error] object: its constructor and its [message]. *)
Record exn := Exn { name : error_name; message : jsstring }.

(** How an evaluation ends: with a value, or by throwing. *)
Inductive completion (A : Type) :=
| Normal (a : A)
| Throw (e : exn).
Arguments Normal {A} a.
Arguments Throw {A} e.

Definition bind {A B} (c : completion A) (k : A -> completion B) : completion B :=
  match c with
  | Normal a => k a
  | Throw e => Throw e
  end.

Notation "x <- c ;; k" := (bind c (fun x => k))
  (at level 100, c at next level, right associativity).

(** The texts of the errors the host raises by itself are not fixed by the
    language; an [engine] supplies them. *)
Record engine := Engine {
  (** [message] of the [SyntaxError] of [JSON.parse(src)] *)
  syntax_error_message : jsstring -> jsstring;
  (** [message] of the [TypeError] of reading property [p] of [null], where
      [obj] is the source text of the expression that was [null] *)
  null_read_message : jsstring -> jsstring -> jsstring;
  (** the same for [undefined] *)
  undefined_read_message : jsstring -> jsstring -> jsstring;
  (** [message] of the [TypeError] of calling [callee], the source text of
      an expression whose value is no function *)
  not_function_message : jsstring -> jsstring;
  (** [message] of the [URIError] of [encodeURIComponent] *)
  uri_error_message : jsstring
}.

(** ** JSON values *)

#[local] Set Warnings "-register-all".

(** What [JSON.parse] returns. A number is kept as the decimal it was
    written as, [mantissa * 10 ^ exponent]; an object keeps its members in
    source order. *)
Inductive JSON :=
| JNull
| JBool (b : bool)
| JNum (mantissa exponent : Z)
| JStr (s : jsstring)
| JArr (elements : list JSON)
| JObj (members : list (jsstring * JSON)).

(** A JavaScript value as the modelled code meets them: a JSON value, or
    [undefined] ([None]). *)
Abbreviation jsval := (option JSON).

Module Js.

(** Whether the double nearest to [m * 10 ^ e] is zero: with ties to even,
    exactly the magnitudes up to [2 ^ -1075], half the least subnormal. *)
Definition number_is_zero (m e : Z) : bool :=
  if m =? 0 then true
  else if 0 <=? e then false
  else Z.abs m * 2 ^ 1075 <=? 10 ^ (- e).

(** ToBoolean *)
Definition truthy (v : jsval) : bool :=
  match v with
  | None => false
  | Some JNull => false
  | Some (JBool b) => b
  | Some (JNum m e) => negb (number_is_zero m e)
  | Some (JStr s) => match s with [] => false | _ => true end
  | Some (JArr _) => true
  | Some (JObj _) => true
  end.

Inductive type_tag := TUndefined | TObject | TBoolean | TNumber | TString.

(** [typeof v] *)
Definition typeof (v : jsval) : type_tag :=
  match v with
  | None => TUndefined
  | Some JNull => TObject
  | Some (JBool _) => TBoolean
  | Some (JNum _ _) => TNumber
  | Some (JStr _) => TString
  | Some (JArr _) => TObject
  | Some (JObj _) => TObject
  end.

Definition type_name (t : type_tag) : jsstring :=
  match t with
  | TUndefined => u "undefined"
  | TObject => u "object"
  | TBoolean => u "boolean"
  | TNumber => u "number"
  | TString => u "string"
  end.

Definition is_number (v : jsval) : bool :=
  match typeof v with TNumber => true | _ => false end.

(** [Array.isArray(v)] *)
Definition isArray (v : jsval) : bool :=
  match v with
  | Some (JArr _) => true
  | _ => false
  end.

(** The own property [k] of an object built by [JSON.parse]: of members
    with the same key the last one stays. *)
Fixpoint own_property (k : jsstring) (members : list (jsstring * JSON)) : jsval :=
  match members with
  | [] => None
  | (k', v) :: rest =>
      match own_property k rest with
      | Some w => Some w
      | None => if decide (k' = k) then Some v else None
      end
  end.

(** [obj.k], for the property names the modelled code reads from parsed
    data ([title], [itinerary], [name], [description], [location], [lat],
    [lng]): [obj] is the source text of the object expression. Reading from
    [null] or [undefined] throws; none of these names is an index, [length]
    or a method, so a string, number, boolean or array has no such
    property. *)
Definition get (E : engine) (obj : jsstring) (v : jsval) (k : jsstring)
  : completion jsval :=
  match v with
  | None => Throw (Exn TypeError (undefined_read_message E obj k))
  | Some JNull => Throw (Exn TypeError (null_read_message E obj k))
  | Some (JObj members) => Normal (own_property k members)
  | Some _ => Normal None
  end.

(** [v.length], evaluated only for a log line: it throws on [null] and
    [undefined]. *)
Definition read_length (E : engine) (obj : jsstring) (v : jsval) : completion unit :=
  match v with
  | None => Throw (Exn TypeError (undefined_read_message E obj (u "length")))
  | Some JNull => Throw (Exn TypeError (null_read_message E obj (u "length")))
  | Some _ => Normal tt
  end.

End Js.

(** ** [JSON.parse]

    A recursive-descent parser for the JSON grammar of ECMA-404, which is
    the grammar [JSON.parse] accepts. *)

Module JsonParse.

Inductive parsed (A : Type) :=
| POk (a : A) (rest : jsstring)   (* a value, and the input after it *)
| PSyntax                         (* the input is not JSON *)
| PFuel.                          (* the recursion budget ran out *)
Arguments POk {A} a rest.
Arguments PSyntax {A}.
Arguments PFuel {A}.

(** JSON white space: tab, line feed, carriage return, space. *)
Definition is_ws (c : N) : bool :=
  ((c =? 9) || (c =? 10) || (c =? 13) || (c =? 32))%N.

Definition skip_ws (s : jsstring) : jsstring := dropWhile is_ws s.

Definition is_digit (c : N) : bool := ((48 <=? c) && (c <=? 57))%N.

Definition digit_value (c : N) : Z := Z.of_N c - 48.

(** The longest run of digits at the head of [s]: its value on top of
    [acc], how many digits it has, and the input after it. *)
Fixpoint digits (s : jsstring) (acc : Z) (n : Z) : Z * Z * jsstring :=
  match s with
  | c :: r => if is_digit c then digits r (10 * acc + digit_value c) (n + 1)
              else (acc, n, s)
  | [] => (acc, n, s)
  end.

(** int: a single 0, or a digit 1-9 and more digits. *)
Definition parse_int (s : jsstring) : parsed Z :=
  match s with
  | c :: r =>
      if (c =? 48)%N then POk 0 r
      else if is_digit c then
        let '(v, _, r') := digits r (digit_value c) 1 in POk v r'
      else PSyntax
  | [] => PSyntax
  end.

(** frac: nothing, or a point and at least one digit. Returns the mantissa
    extended by the fraction digits and their number. *)
Definition parse_frac (int_part : Z) (s : jsstring) : parsed (Z * Z) :=
  match s with
  | c :: r =>
      if (c =? 46)%N then
        let '(v, n, r') := digits r int_part 0 in
        if n =? 0 then PSyntax else POk (v, n) r'
      else POk (int_part, 0) s
  | [] => POk (int_part, 0) s
  end.

(** exp: nothing, or e or E, an optional sign and at least one digit. *)
Definition parse_exp (s : jsstring) : parsed Z :=
  match s with
  | c :: r =>
      if ((c =? 101) || (c =? 69))%N then
        let '(negative, r1) :=
          match r with
          | d :: r' => if (d =? 45)%N then (true, r')
                       else if (d =? 43)%N then (false, r')
                       else (false, r)
          | [] => (false, r)
          end in
        let '(v, n, r2) := digits r1 0 0 in
        if n =? 0 then PSyntax else POk (if negative then - v else v) r2
      else POk 0 s
  | [] => POk 0 s
  end.

(** number: an optional minus, int, frac, exp. *)
Definition parse_number (s : jsstring) : parsed JSON :=
  let '(negative, s1) :=
    match s with
    | c :: r => if (c =? 45)%N then (true, r) else (false, s)
    | [] => (false, s)
    end in
  match parse_int s1 with
  | POk i s2 =>
      match parse_frac i s2 with
      | POk (m, nfrac) s3 =>
          match parse_exp s3 with
          | POk e s4 => POk (JNum (if negative then - m else m) (e - nfrac)) s4
          | PSyntax => PSyntax
          | PFuel => PFuel
          end
      | PSyntax => PSyntax
      | PFuel => PFuel
      end
  | PSyntax => PSyntax
  | PFuel => PFuel
  end.

Definition hex_value (c : N) : option N :=
  (if (48 <=? c) && (c <=? 57) then Some (c - 48)
   else if (65 <=? c) && (c <=? 70) then Some (c - 55)
   else if (97 <=? c) && (c <=? 102) then Some (c - 87)
   else None)%N.

Definition hex4 (a b c d : N) : option N :=
  match hex_value a, hex_value b, hex_value c, hex_value d with
  | Some x, Some y, Some z, Some w => Some (((x * 16 + y) * 16 + z) * 16 + w)%N
  | _, _, _, _ => None
  end.

(** The code unit a one-letter escape stands for. *)
Definition simple_escape (c : N) : option N :=
  (if c =? 34 then Some 34          (* quotation mark *)
   else if c =? 92 then Some 92     (* reverse solidus *)
   else if c =? 47 then Some 47     (* solidus *)
   else if c =? 98 then Some 8      (* b: backspace *)
   else if c =? 102 then Some 12    (* f: form feed *)
   else if c =? 110 then Some 10    (* n: line feed *)
   else if c =? 114 then Some 13    (* r: carriage return *)
   else if c =? 116 then Some 9     (* t: tab *)
   else None)%N.

(** The characters of a string up to its closing quote; [acc] holds the
    code units read so far, last first. *)
Fixpoint parse_chars (s : jsstring) (acc : jsstring) : parsed jsstring :=
  match s with
  | [] => PSyntax
  | c :: r =>
      if (c =? 34)%N then POk (rev acc) r
      else if (c =? 92)%N then
        match r with
        | [] => PSyntax
        | e :: r1 =>
            if (e =? 117)%N then
              match r1 with
              | h1 :: h2 :: h3 :: h4 :: r2 =>
                  match hex4 h1 h2 h3 h4 with
                  | Some x => parse_chars r2 (x :: acc)
                  | None => PSyntax
                  end
              | _ => PSyntax
              end
            else
              match simple_escape e with
              | Some x => parse_chars r1 (x :: acc)
              | None => PSyntax
              end
        end
      else if (c <? 32)%N then PSyntax
      else parse_chars r (c :: acc)
  end.

Definition parse_keyword (s : jsstring) : parsed JSON :=
  if startsWith (u "null") s then POk JNull (drop 4 s)
  else if startsWith (u "true") s then POk (JBool true) (drop 4 s)
  else if startsWith (u "false") s then POk (JBool false) (drop 5 s)
  else PSyntax.

(** value, elements and members. [parse_elements] reads the elements of an
    array after its '[' (the array is not empty), [parse_members] the
    members of an object after its '{'; [acc] holds what was read so far,
    last first. Every call goes down by one in [fuel]. *)
Fixpoint parse_value (fuel : nat) (s : jsstring) : parsed JSON :=
  match fuel with
  | O => PFuel
  | S fuel' =>
      match skip_ws s with
      | [] => PSyntax
      | c :: r =>
          if (c =? 91)%N then
            match skip_ws r with
            | d :: r' => if (d =? 93)%N then POk (JArr []) r'
                         else parse_elements fuel' r []
            | [] => PSyntax
            end
          else if (c =? 123)%N then
            match skip_ws r with
            | d :: r' => if (d =? 125)%N then POk (JObj []) r'
                         else parse_members fuel' r []
            | [] => PSyntax
            end
          else if (c =? 34)%N then
            match parse_chars r [] with
            | POk str r' => POk (JStr str) r'
            | PSyntax => PSyntax
            | PFuel => PFuel
            end
          else if (c =? 45)%N || is_digit c then parse_number (c :: r)
          else parse_keyword (c :: r)
      end
  end
with parse_elements (fuel : nat) (s : jsstring) (acc : list JSON) : parsed JSON :=
  match fuel with
  | O => PFuel
  | S fuel' =>
      match parse_value fuel' s with
      | POk v r =>
          match skip_ws r with
          | c :: r' =>
              if (c =? 44)%N then parse_elements fuel' r' (v :: acc)
              else if (c =? 93)%N then POk (JArr (rev (v :: acc))) r'
              else PSyntax
          | [] => PSyntax
          end
      | PSyntax => PSyntax
      | PFuel => PFuel
      end
  end
with parse_members (fuel : nat) (s : jsstring) (acc : list (jsstring * JSON))
  : parsed JSON :=
  match fuel with
  | O => PFuel
  | S fuel' =>
      match skip_ws s with
      | q :: r =>
          if (q =? 34)%N then
            match parse_chars r [] with
            | POk k r1 =>
                match skip_ws r1 with
                | c :: r2 =>
                    if (c =? 58)%N then
                      match parse_value fuel' r2 with
                      | POk v r3 =>
                          match skip_ws r3 with
                          | d :: r4 =>
                              if (d =? 44)%N then parse_members fuel' r4 ((k, v) :: acc)
                              else if (d =? 125)%N then POk (JObj (rev ((k, v) :: acc))) r4
                              else PSyntax
                          | [] => PSyntax
                          end
                      | PSyntax => PSyntax
                      | PFuel => PFuel
                      end
                    else PSyntax
                | [] => PSyntax
                end
            | PSyntax => PSyntax
            | PFuel => PFuel
            end
          else PSyntax
      | [] => PSyntax
      end
  end.

(** The budget that is enough for [src] (see [parse_fuel]). *)
Definition enough (src : jsstring) : nat := S (2 * length src).

(** A JSON text is one value with white space around it. [None] is the
    budget running out, which [JSON_parse_total] excludes. *)
Definition parse_text (src : jsstring) : option (option JSON) :=
  match parse_value (enough src) src with
  | POk v rest => match skip_ws rest with
                  | [] => Some (Some v)
                  | _ :: _ => Some None
                  end
  | PSyntax => Some None
  | PFuel => None
  end.

(** [JSON.parse(src)] *)
Definition JSON_parse (E : engine) (src : jsstring) : completion JSON :=
  match parse_text src with
  | Some (Some v) => Normal v
  | _ => Throw (Exn SyntaxError (syntax_error_message E src))
  end.

(** A parser step is [tame] on [s] when it did not run out of budget and
    what it leaves of the input is no longer than [s]. *)
Definition tame {A} (s : jsstring) (p : parsed A) : Prop :=
  match p with
  | POk _ rest => (length rest <= length s)%nat
  | PSyntax => True
  | PFuel => False
  end.

End JsonParse.

Import JsonParse.


(** ** The itinerary generator ([src/services/gemini.js]) *)

Module Gemini.

(** How many days we allow per chunk. *)
Definition CHUNK_SIZE : Z := 7.

(** The code unit of the rupee sign in the sample hotel price. *)
Definition rupee : N := 8377%N.

(** The prompt for the days [start] to [end_]. [city] and [budget] stand
    for the texts that the template interpolates for them. *)
Definition prompt (city budget : jsstring) (start end_ : Z) : jsstring :=
    q "Generate a detailed day-by-day travel itinerary for "
    ++ city
    ++ q " with a budget of "
    ++ budget
    ++ q ".

Create plans ONLY for days "
    ++ of_Z start
    ++ q " to "
    ++ of_Z end_
    ++ q ".

Each place must include a long detailed description (history, cultural significance, architecture, interesting facts, and visitor tips).

IMPORTANT: Use REAL and ACCURATE coordinates (latitude and longitude) for each location. Research actual coordinates for famous landmarks, museums, parks, and attractions in "
    ++ city
    ++ q ".

ALSO IMPORTANT: For each place, include 2-3 nearby restaurants/food shops and 1-2 nearby hotels with real names, ratings, and prices.

CRITICAL: Return ONLY valid JSON in this exact structure, with NO additional text, explanations, or markdown formatting:

[
  {
    'title': 'Day "
    ++ of_Z start
    ++ q ": Short Title',
    'itinerary': [
      {
        'name': 'Place 1',
        'description': 'A long, detailed description of the place including its history, cultural significance, architecture, interesting facts, and visitor tips.',
        'location': { 'lat': 28.6139, 'lng': 77.2090, 'label': 'Place 1 Label' },
        'nearbyFood': [
          {
            'name': 'Restaurant Name',
            'rating': '4.5/5',
            'distance': '300m away',
            'description': 'Brief description of the restaurant and its cuisine'
          }
        ],
        'nearbyHotels': [
          {
            'name': 'Hotel Name',
            'rating': '4.3/5',
            'price': '"
    ++ [rupee]
    ++ q "2000/night',
            'distance': '500m away',
            'description': 'Brief description of the hotel'
          }
        ]
      }
    ]
  }
]

Do not include any text before or after the JSON array. Start with [ and end with ].".

(** The [message] of the error of the missing key. *)
Definition missing_key_message : jsstring :=
  u "Gemini API key is missing. Please check your .env file.".

(** The plan returned when generation fails with an error whose [message]
    is [msg]. *)
Definition fallback (msg : jsstring) : list JSON :=
  [ JObj
      [ (u "title", JStr (u "Day 1: Default Plan (API Error)"));
        (u "itinerary",
         JArr
           [ JObj
               [ (u "name", JStr (u "Fallback Spot"));
                 (u "description",
                  JStr (u "Default location because AI parsing failed. Error: " ++ msg));
                 (u "location",
                  JObj [ (u "lat", JNum 286139 (-4));
                         (u "lng", JNum 772090 (-4));
                         (u "label", JStr (u "Fallback Spot")) ]) ] ]) ] ].

(** The warning logged when the number of days differs from the request. *)
Definition mismatch_warning (days : Z) (got : nat) : jsstring :=
  [9888%N; 65039%N] ++ u " Warning: Expected " ++ of_Z days
  ++ u " days but got " ++ of_nat got ++ u " days".

(** [a || b] on conditions that may throw. *)
Definition orelse (a b : completion bool) : completion bool :=
  x <- a ;; if x then Normal true else b.

Fixpoint forEach_from {A} (f : A -> nat -> completion unit) (l : list A) (index : nat)
  : completion unit :=
  match l with
  | [] => Normal tt
  | x :: rest => _ <- f x index ;; forEach_from f rest (S index)
  end.

(** What one run of [generateItinerary] does: how it ends, the prompts it
    sent to the model, in order, and the lines it gave to [console.warn].
    ([console.log] and [console.error] lines are not recorded; what their
    arguments read is.) *)
Record run := Run {
  outcome : completion (list JSON);
  prompts : list jsstring;
  warnings : list jsstring
}.

Section Generator.

(** The host's error texts. *)
Variable E : engine.

(** [process.env.REACT_APP_GEMINI_API_KEY]; [None] when it is not set. *)
Variable apiKey : option jsstring.

(** [model.generateContent(prompt)] up to [response.text()]: the text the
    model gives to the [n]-th request of the run, or the error with which
    the request fails. *)
Variable model : nat -> jsstring -> completion jsstring.

(** [v.forEach(f)] *)
Definition forEach (callee : jsstring) (v : jsval) (f : JSON -> nat -> completion unit)
  : completion unit :=
  match v with
  | Some (JArr l) => forEach_from f l O
  | None => Throw (Exn TypeError (undefined_read_message E callee (u "forEach")))
  | Some JNull => Throw (Exn TypeError (null_read_message E callee (u "forEach")))
  | Some _ => Throw (Exn TypeError (not_function_message E (callee ++ u ".forEach")))
  end.

(** Lines 86-92: the text from the first '[' to the last ']', when there
    are both and in this order. *)
Definition slice (cleaned : jsstring) : jsstring :=
  let firstBracket := indexOf lbracket cleaned in
  let lastBracket := lastIndexOf rbracket cleaned in
  if negb (firstBracket =? -1) && negb (lastBracket =? -1) && (firstBracket <? lastBracket)
  then substring cleaned firstBracket (lastBracket + 1)
  else cleaned.

(** Lines 81-92: the response without the white space around it and
    without its code fences, cut down to its brackets. *)
Definition clean (text : jsstring) : jsstring :=
  let cleaned := trim text in
  let cleaned := remove_all (u "```") (remove_all (u "```json") cleaned) in
  slice cleaned.

Definition days_range (start end_ : Z) : jsstring := of_Z start ++ u "-" ++ of_Z end_.

(** Lines 96-116: parse, and on failure parse the match of the regular
    expression. *)
Definition parse_chunk (cleaned : jsstring) (start end_ : Z) : completion JSON :=
  match JSON_parse E cleaned with
  | Normal chunk => Normal chunk
  | Throw parseError =>
      match match_array cleaned with
      | Some jsonMatch =>
          match JSON_parse E jsonMatch with
          | Normal chunk => Normal chunk
          | Throw recoveryError =>
              Throw (Exn Error (u "JSON parsing failed for days " ++ days_range start end_
                                ++ u ": " ++ message parseError))
          end
      | None =>
          Throw (Exn Error (u "No valid JSON array found in response for days "
                            ++ days_range start end_))
      end
  end.

(** Lines 130-135 *)
Definition validate_place (index : nat) (start end_ : Z) (place : JSON) (placeIndex : nat)
  : completion unit :=
  invalid <-
    orelse (v <- Js.get E (u "place") (Some place) (u "name") ;;
            Normal (negb (Js.truthy v)))
   (orelse (v <- Js.get E (u "place") (Some place) (u "description") ;;
            Normal (negb (Js.truthy v)))
   (orelse (v <- Js.get E (u "place") (Some place) (u "location") ;;
            Normal (negb (Js.truthy v)))
   (orelse (l <- Js.get E (u "place") (Some place) (u "location") ;;
            v <- Js.get E (u "place.location") l (u "lat") ;;
            Normal (negb (Js.is_number v)))
           (l <- Js.get E (u "place") (Some place) (u "location") ;;
            v <- Js.get E (u "place.location") l (u "lng") ;;
            Normal (negb (Js.is_number v)))))) ;;
  if invalid then
    Throw (Exn Error (u "Invalid place structure at place " ++ of_nat placeIndex
                      ++ u " in day " ++ of_nat index ++ u " of chunk "
                      ++ days_range start end_))
  else Normal tt.

(** Lines 125-136 *)
Definition validate_day (start end_ : Z) (day : JSON) (index : nat) : completion unit :=
  invalid <-
    orelse (v <- Js.get E (u "day") (Some day) (u "title") ;;
            Normal (negb (Js.truthy v)))
   (orelse (v <- Js.get E (u "day") (Some day) (u "itinerary") ;;
            Normal (negb (Js.truthy v)))
           (v <- Js.get E (u "day") (Some day) (u "itinerary") ;;
            Normal (negb (Js.isArray v)))) ;;
  if invalid then
    Throw (Exn Error (u "Invalid day structure at index " ++ of_nat index
                      ++ u " in chunk " ++ days_range start end_))
  else
    itinerary <- Js.get E (u "day") (Some day) (u "itinerary") ;;
    forEach (u "day.itinerary") itinerary (validate_place index start end_).

(** Lines 117-136: the days of a well-formed chunk. *)
Definition validate_chunk (chunk : JSON) (start end_ : Z) : completion (list JSON) :=
  _ <- Js.read_length E (u "chunk") (Some chunk) ;;
  match chunk with
  | JArr days => _ <- forEach_from (validate_day start end_) days O ;; Normal days
  | _ =>
      Throw (Exn Error (u "Expected array but got " ++ Js.type_name (Js.typeof (Some chunk))
                        ++ u " for days " ++ days_range start end_))
  end.

(** Lines 80-136: from the text of a response to the days it holds. *)
Definition read_chunk (text : jsstring) (start end_ : Z) : completion (list JSON) :=
  chunk <- parse_chunk (clean text) start end_ ;;
  validate_chunk chunk start end_.

(** Lines 25-139, the loop over the chunks. [sent] holds the prompts sent
    so far. The result is [None] when [fuel] iterations were not enough. *)
Fixpoint chunks (fuel : nat) (city budget : jsstring) (days : Z)
    (start : Z) (sent : list jsstring) (fullItinerary : list JSON)
  : option (completion (list JSON)) * list jsstring :=
  if start <=? days then
    match fuel with
    | O => (None, sent)
    | S fuel' =>
        let end_ := Z.min (start + CHUNK_SIZE - 1) days in
        let request := prompt city budget start end_ in
        match text <- model (length sent) request ;; read_chunk text start end_ with
        | Normal chunk =>
            chunks fuel' city budget days (start + CHUNK_SIZE) (sent ++ [request])
                   (fullItinerary ++ chunk)
        | Throw err => (Some (Throw err), sent ++ [request])
        end
    end
  else (Some (Normal fullItinerary), sent).

(** [generateItinerary(city, budget, days)], for a whole number of [days]
    (printed in decimal, as JavaScript prints the whole numbers below
    10^21); [None] when [fuel] iterations of the loop were not enough.
    [genAI.getGenerativeModel], at line 15, only builds the client object;
    errors are objects with a string for [message]. *)
Definition generateItinerary_within (fuel : nat) (city budget : jsstring) (days : Z)
  : option run :=
  if negb (Js.truthy (JStr <$> apiKey)) then
    Some (Run (Throw (Exn Error missing_key_message)) [] [])
  else
    match chunks fuel city budget days 1 [] [] with
    | (None, _) => None
    | (Some (Normal fullItinerary), sent) =>
        Some (Run (Normal fullItinerary) sent
                  (if decide (Z.of_nat (length fullItinerary) = days) then []
                   else [mismatch_warning days (length fullItinerary)]))
    | (Some (Throw err), sent) => Some (Run (Normal (fallback (message err))) sent [])
    end.

(** One iteration for each day is more than the loop needs
    (see [generateItinerary_total]). *)
Definition generateItinerary (city budget : jsstring) (days : Z) : option run :=
  generateItinerary_within (Z.to_nat days) city budget days.

(** *** The windows of a request

    The loop starts its [k]-th iteration, counting from 0, at day
    [window_start k], and runs it while that day is within [days]. *)

Definition window_start (k : nat) : Z := 1 + CHUNK_SIZE * Z.of_nat k.

Definition window_end (days : Z) (k : nat) : Z :=
  Z.min (window_start k + CHUNK_SIZE - 1) days.

Definition window_count (days : Z) : nat :=
  Z.to_nat ((days + CHUNK_SIZE - 1) / CHUNK_SIZE).

Definition window_prompt (city budget : jsstring) (days : Z) (k : nat) : jsstring :=
  prompt city budget (window_start k) (window_end days k).

(** What the [k]-th iteration comes to when it is the [k]-th request of the
    run: the days of its chunk, or the error it raises. *)
Definition window (city budget : jsstring) (days : Z) (k : nat) : completion (list JSON) :=
  text <- model k (window_prompt city budget days k) ;;
  read_chunk text (window_start k) (window_end days k).

End Generator.

End Gemini.

(** ** The schema of a chunk, in the words of the specification

    "Must be an array; each element must have a non-empty title and an
    array-typed itinerary; each itinerary entry must have name, description,
    and a location with numeric lat/lng", where to have a property is to
    have a value for it that counts as true. *)

Module Schema.

Definition place_conforms (place : JSON) : bool :=
  match place with
  | JObj members =>
      Js.truthy (Js.own_property (u "name") members)
      && Js.truthy (Js.own_property (u "description") members)
      && match Js.own_property (u "location") members with
         | Some (JObj location) =>
             Js.is_number (Js.own_property (u "lat") location)
             && Js.is_number (Js.own_property (u "lng") location)
         | _ => false
         end
  | _ => false
  end.

Definition day_conforms (day : JSON) : bool :=
  match day with
  | JObj members =>
      Js.truthy (Js.own_property (u "title") members)
      && match Js.own_property (u "itinerary") members with
         | Some (JArr places) => forallb place_conforms places
         | _ => false
         end
  | _ => false
  end.

Definition chunk_conforms (chunk : JSON) : bool :=
  match chunk with
  | JArr days => forallb day_conforms days
  | _ => false
  end.

(** The places of a day, as the validation walks them. *)
Definition places_of (day : JSON) : list JSON :=
  match day with
  | JObj members =>
      match Js.own_property (u "itinerary") members with
      | Some (JArr places) => places
      | _ => []
      end
  | _ => []
  end.

End Schema.

(** ** The image search ([src/services/unsplash.js]) *)

Module Uri.

(** The code units [encodeURIComponent] leaves as they are: letters,
    digits and [- _ . ! ~ * ' ( )]. *)
Definition unreserved (c : N) : bool :=
  ((65 <=? c) && (c <=? 90) || (97 <=? c) && (c <=? 122) || (48 <=? c) && (c <=? 57)
   || (c =? 45) || (c =? 95) || (c =? 46) || (c =? 33) || (c =? 126)
   || (c =? 42) || (c =? 39) || (c =? 40) || (c =? 41))%N.

Definition hex_digit (d : N) : N := (if d <? 10 then 48 + d else 55 + d)%N.

(** [%XX] for the byte [b] *)
Definition percent (b : N) : jsstring := [37%N; hex_digit (b / 16); hex_digit (b mod 16)].

(** The UTF-8 bytes of the code point [cp]. *)
Definition utf8 (cp : N) : list N :=
  (if cp <? 128 then [cp]
   else if cp <? 2048 then [192 + cp / 64; 128 + cp mod 64]
   else if cp <? 65536 then [224 + cp / 4096; 128 + (cp / 64) mod 64; 128 + cp mod 64]
   else [240 + cp / 262144; 128 + (cp / 4096) mod 64; 128 + (cp / 64) mod 64;
         128 + cp mod 64])%N.

Definition escape (cp : N) : jsstring := concat (map percent (utf8 cp)).

Definition is_high_surrogate (c : N) : bool := ((55296 <=? c) && (c <=? 56319))%N.
Definition is_low_surrogate (c : N) : bool := ((56320 <=? c) && (c <=? 57343))%N.

(** The encoding of [s], or [None] where the host throws its [URIError]:
    at a surrogate that is not half of a pair. *)
Fixpoint encode (s : jsstring) : option jsstring :=
  match s with
  | [] => Some []
  | c :: r =>
      if unreserved c then (c ::.) <$> encode r
      else if is_low_surrogate c then None
      else if is_high_surrogate c then
        match r with
        | d :: r' =>
            if is_low_surrogate d
            then (escape ((c - 55296) * 1024 + (d - 56320) + 65536)%N ++.) <$> encode r'
            else None
        | [] => None
        end
      else (escape c ++.) <$> encode r
  end.

(** [encodeURIComponent(s)] *)
Definition encodeURIComponent (E : engine) (s : jsstring) : completion jsstring :=
  match encode s with
  | Some t => Normal t
  | None => Throw (Exn URIError (uri_error_message E))
  end.

End Uri.

Module Unsplash.

(** The body of a search response, at the shape [getPlaceImage] reads it:
    [data.results], and for a result the value that [urls.regular]
    evaluates to ([None] for [undefined]). A body on which one of these
    reads throws is a body whose [json()] throws: both end in the same
    [catch]. *)
Record photo := Photo { urls_regular : jsval }.
Record search_data := SearchData { results : list photo }.

(** What [fetch] resolves to: [res.ok], and what [res.json()] gives. *)
Record response := Response { ok : bool; json : completion search_data }.

(** A search that comes to nothing: the request fails, the response is not
    [ok], its body cannot be read, or it has no results. *)
Definition finds_nothing (outcome : completion response) : Prop :=
  match outcome with
  | Throw _ => True
  | Normal res =>
      ok res = false \/ (exists e, json res = Throw e) \/
      (exists data, json res = Normal data /\ results data = [])
  end.

(** The fallback placeholder image. *)
Definition NO_IMAGE : jsstring := u "https://via.placeholder.com/600x400?text=No+Image".

Section Service.

Variable E : engine.

(** [process.env.REACT_APP_UNSPLASH_KEY]; [None] when it is not set. *)
Variable UNSPLASH_ACCESS_KEY : option jsstring.

(** [fetch(url)], for the [n]-th request made: a response, or the error
    with which the request fails. *)
Variable fetch : nat -> jsstring -> completion response.

Definition search_url (encoded_query : jsstring) : jsstring :=
  u "https://api.unsplash.com/search/photos?query=" ++ encoded_query
  ++ u "&client_id=" ++ default (u "undefined") UNSPLASH_ACCESS_KEY
  ++ u "&orientation=landscape&per_page=1".

(** The [try] block of [getPlaceImage] (lines 6-20). [requested] holds the
    URLs fetched so far. *)
Definition search (query : jsstring) (requested : list jsstring)
  : completion jsval * list jsstring :=
  match Uri.encodeURIComponent E query with
  | Throw error => (Throw error, requested)
  | Normal encoded =>
      let url := search_url encoded in
      (res <- fetch (length requested) url ;;
       if negb (ok res) then Throw (Exn Error (u "Unsplash fetch failed"))
       else
         data <- json res ;;
         match results data with
         | first :: _ => Normal (urls_regular first)
         | [] => Normal (Some (JStr NO_IMAGE))
         end,
       requested ++ [url])
  end.

(** [getPlaceImage(query)] *)
Definition getPlaceImage (query : jsstring) (requested : list jsstring)
  : completion jsval * list jsstring :=
  match search query requested with
  | (Normal url, requested') => (Normal url, requested')
  | (Throw error, requested') => (Normal (Some (JStr NO_IMAGE)), requested')
  end.

End Service.

End Unsplash.

(** ** The image cache ([useImageCache] in [src/components/Sidebar.js]) *)

Module Sidebar.

(** What the hook's functions work on: the [Map] behind [cacheRef], and
    the URLs fetched so far. *)
Record store := Store {
  cache : gmap jsstring JSON;
  requested : list jsstring
}.

Section ImageCache.

Variable E : engine.
Variable UNSPLASH_ACCESS_KEY : option jsstring.
Variable fetch : nat -> jsstring -> completion Unsplash.response.

(** [get(key)]: [None] is [undefined]. *)
Definition get (key : jsstring) (st : store) : jsval := cache st !! key.

(** [set(key, val)] *)
Definition set (key : jsstring) (val : JSON) (st : store) : store :=
  Store (<[key := val]> (cache st)) (requested st).

(** [query || "travel"] *)
Definition query_or_travel (query : jsstring) : jsstring :=
  match query with
  | [] => u "travel"
  | _ :: _ => query
  end.

(** The URL made from the query (lines 223-225). *)
Definition fallback_url (query : jsstring) : completion jsstring :=
  encoded <- Uri.encodeURIComponent E (query_or_travel query) ;;
  Normal (u "https://source.unsplash.com/600x400/?" ++ encoded).

(** The last part of [getOrFetch] (lines 222-228): always provide a
    fallback. *)
Definition provide_fallback (key query : jsstring) (st : store)
  : completion jsval * store :=
  match fallback_url query with
  | Normal fallback => (Normal (Some (JStr fallback)), set key (JStr fallback) st)
  | Throw e => (Throw e, st)
  end.

(** [getOrFetch(key, query)] *)
Definition getOrFetch (key query : jsstring) (st : store) : completion jsval * store :=
  let current := get key st in
  if Js.truthy current then (Normal current, st)
  else
    let '(fetched, requested') :=
      Unsplash.getPlaceImage E UNSPLASH_ACCESS_KEY fetch query (requested st) in
    let st' := Store (cache st) requested' in
    match fetched with
    | Normal (Some url) =>
        if Js.truthy (Some url) then (Normal (Some url), set key url st')
        else provide_fallback key query st'
    | Normal None => provide_fallback key query st'
    | Throw err => provide_fallback key query st'
    end.

End ImageCache.

End Sidebar.

(** ** Sample hosts, responses and backends *)

Module Samples.

(** Error texts in the style of V8. *)
Definition v8 : engine :=
  {| syntax_error_message := fun src => u "Unexpected token in JSON";
     null_read_message := fun obj p =>
       u "Cannot read properties of null (reading '" ++ p ++ u "')";
     undefined_read_message := fun obj p =>
       u "Cannot read properties of undefined (reading '" ++ p ++ u "')";
     not_function_message := fun callee => callee ++ u " is not a function";
     uri_error_message := u "URI malformed" |}.

Definition key : option jsstring := Some (u "AIza-sample-key").

(** A day object, as the model writes it. *)
Definition day_object : jsstring :=
  q "{'title': 'Day 1: Temples', 'itinerary': [{'name': 'Kinkaku-ji', 'description': 'The Golden Pavilion.', 'location': {'lat': 35.0394, 'lng': 135.7292, 'label': 'Kinkaku-ji'}}]}".

(** A response that is a one-day chunk and nothing else. *)
Definition one_day : jsstring := lbracket :: day_object ++ [rbracket].

(** A chunk whose second day is [null]. *)
Definition day_then_null : jsstring := lbracket :: day_object ++ u ", null" ++ [rbracket].

(** The days of [one_day]. *)
Definition one_day_plan : list JSON :=
  [ JObj
      [ (u "title", JStr (u "Day 1: Temples"));
        (u "itinerary",
         JArr
           [ JObj
               [ (u "name", JStr (u "Kinkaku-ji"));
                 (u "description", JStr (u "The Golden Pavilion."));
                 (u "location",
                  JObj [ (u "lat", JNum 350394 (-4));
                         (u "lng", JNum 1357292 (-4));
                         (u "label", JStr (u "Kinkaku-ji")) ]) ] ]) ] ].

(** The same chunk in code fences, with prose around it. *)
Definition fence_and_prose_before : jsstring :=
  u "Here is your plan:
```json
".

Definition fence_and_prose_after : jsstring :=
  u "
```
Enjoy your trip!".

Definition fenced : jsstring := fence_and_prose_before ++ one_day ++ fence_and_prose_after.

(** An empty array in code fences, with prose that has brackets of its
    own. *)
Definition fenced_bracket_prose : jsstring :=
  u "Plan [draft]: " ++ u "```json
" ++ u "[]" ++ u "
```" ++ u " done".

(** A model that always answers with [one_day]. *)
Definition steady (n : nat) (request : jsstring) : completion jsstring := Normal one_day.

(** A model whose answers are no JSON. *)
Definition chatty (n : nat) (request : jsstring) : completion jsstring :=
  Normal (u "Sorry, I cannot help with that.").

(** A model whose first answer is [one_day] and whose later answers are no
    JSON. *)
Definition tiring (n : nat) (request : jsstring) : completion jsstring :=
  match n with
  | O => Normal one_day
  | S _ => Normal (u "Sorry, I cannot help with that.")
  end.

(** A model whose answer is an array with [null] for its only day. *)
Definition null_day (n : nat) (request : jsstring) : completion jsstring :=
  Normal (u "[null]").

(** A day that is of the schema and has no place. *)
Definition idle_day : JSON :=
  JObj [ (u "title", JStr (u "Day 1: Rest")); (u "itinerary", JArr []) ].

(** An image search that finds nothing. *)
Definition no_results (n : nat) (url : jsstring) : completion Unsplash.response :=
  Normal (Unsplash.Response true (Normal (Unsplash.SearchData []))).

(** An image search whose first result has an empty URL. *)
Definition empty_url (n : nat) (url : jsstring) : completion Unsplash.response :=
  Normal (Unsplash.Response true
            (Normal (Unsplash.SearchData [Unsplash.Photo (Some (JStr []))]))).

(** An image search that finds one photo. *)
Definition one_photo (n : nat) (url : jsstring) : completion Unsplash.response :=
  Normal (Unsplash.Response true
            (Normal (Unsplash.SearchData
                       [Unsplash.Photo (Some (JStr (u "https://images.unsplash.com/photo-1")))]))).

Definition empty_store : Sidebar.store := Sidebar.Store ∅ [].

End Samples.

(** ** The page ([src/pages/Home.js]) *)

Module Home.

(** The host function the page also needs. *)
Record host := Host {
  (** Number::toString of [mantissa * 10 ^ exponent] *)
  number_toString : Z -> Z -> jsstring
}.

(** [clamp(n, min, max)] (line 158), on whole numbers. *)
Definition clamp (n min max : Z) : Z := Z.max min (Z.min max n).

(** [v.k] for a value [v] that is neither [null] nor [undefined] and a name
    [k] that is no index, no [length] and no method: the own property of an
    object, nothing on a string, number, boolean or array. *)
Definition prop (v : JSON) (k : jsstring) : jsval :=
  match v with
  | JObj members => Js.own_property k members
  | _ => None
  end.

(** [v?.k], for such names. *)
Definition optional_prop (v : jsval) (k : jsstring) : jsval :=
  match v with
  | None | Some JNull => None
  | Some w => prop w k
  end.

(** [v?.length] *)
Definition optional_length (v : jsval) : jsval :=
  match v with
  | None | Some JNull => None
  | Some (JArr elements) => Some (JNum (Z.of_nat (length elements)) 0)
  | Some (JStr s) => Some (JNum (Z.of_nat (length s)) 0)
  | Some (JObj members) => Js.own_property (u "length") members
  | Some _ => None
  end.

(** [day?.itinerary?.length] *)
Definition itinerary_length (day : jsval) : jsval :=
  optional_length (optional_prop day (u "itinerary")).

(** *** The places on the map (lines 314-340) *)

(** An element of [allItineraryData]: the properties of [place], spread,
    and the four that are put on top of them. *)
Record map_place := MapPlace {
  place : JSON;
  dayNumber : nat;
  dayIndex : nat;
  placeIndex : nat;
  isFirstPlaceOfDay : bool
}.

(** The callback of [itins.forEach], from the day at [index] on, with
    [number] for [dayNumber]. *)
Fixpoint places_from (E : engine) (days : list JSON) (index number : nat)
  : completion (list map_place) :=
  match days with
  | [] => Normal []
  | day :: rest =>
      if Js.truthy (itinerary_length (Some day)) then
        match prop day (u "itinerary") with
        | Some (JArr places) =>
            later <- places_from E rest (S index) (S number) ;;
            Normal (imap (fun i p => MapPlace p number index i (Nat.eqb i 0)) places
                    ++ later)
        | _ => Throw (Exn TypeError (not_function_message E (u "day.itinerary.forEach")))
        end
      else places_from E rest (S index) number
  end.

(** How many of [days] pass the test of line 320, [day?.itinerary?.length]:
    the days that have places. *)
Fixpoint days_with_places (days : list JSON) : nat :=
  match days with
  | [] => O
  | day :: rest =>
      (if Js.truthy (itinerary_length (Some day)) then 1 else 0) + days_with_places rest
  end.

(** [allItineraryData] *)
Definition allItineraryData (E : engine) (itins : list JSON) : completion (list map_place) :=
  places_from E itins 0 1.

(** [p.location] for an element of [allItineraryData]: [location] is none
    of the four properties put on top, and no index of a spread string or
    array. *)
Definition location (p : map_place) : jsval := prop (place p) (u "location").

(** [[place.location.lat, place.location.lng]] *)
Definition position (E : engine) (p : map_place) : completion (jsval * jsval) :=
  lat <- Js.get E (u "place.location") (location p) (u "lat") ;;
  lng <- Js.get E (u "place.location") (location p) (u "lng") ;;
  Normal (lat, lng).

Fixpoint map_positions (E : engine) (places : list map_place)
  : completion (list (jsval * jsval)) :=
  match places with
  | [] => Normal []
  | p :: rest =>
      here <- position E p ;;
      later <- map_positions E rest ;;
      Normal (here :: later)
  end.

(** [allRoutePositions] *)
Definition allRoutePositions (E : engine) (itins : list JSON)
  : completion (list (jsval * jsval)) :=
  places <- allItineraryData E itins ;;
  map_positions E places.

(** [allItineraryData.find(place => place.dayNumber === i + 1)]
    (lines 411 and 472) *)
Fixpoint find_day (places : list map_place) (i : Z) : option map_place :=
  match places with
  | [] => None
  | p :: rest => if Z.of_nat (dayNumber p) =? i + 1 then Some p else find_day rest i
  end.

(** *** The state of the page *)

Record page := Page {
  itins : list JSON;
  days : Z;
  selectedDay : Z;
  dayData : jsval;
  selectedPlace : jsval;
  loading : bool
}.

(** [arr[i]] for a whole number [i]. *)
Definition at_index (arr : list JSON) (i : Z) : jsval :=
  if i <? 0 then None else arr !! Z.to_nat i.

(** [a || b] *)
Definition or_value (a b : jsval) : jsval := if Js.truthy a then a else b.

(** The value the effect of lines 403-420 gives to [setDayData]. *)
Definition update_day (st : page) : jsval :=
  if (0 <? days st) && (0 <? Z.of_nat (length (itins st)))
  then or_value (at_index (itins st) (selectedDay st)) (at_index (itins st) 0)
  else Some JNull.

(** The indices of the day chips (lines 668-683): those of
    [itins.slice(0, days)], when the chips are shown. *)
Definition day_chips (st : page) : list nat :=
  if negb (loading st) && (0 <? days st) && (0 <? Z.of_nat (length (itins st)))
  then seq 0 (length (take (Z.to_nat (days st)) (itins st)))
  else [].

(** [handleDayChipClick(i)], without its timer (lines 465-467) *)
Definition handleDayChipClick (i : Z) (st : page) : page :=
  Page (itins st) (days st) i (dayData st) (Some JNull) (loading st).

(** *** The form *)

(** The fields of the form: the city as typed, and for the budget and the
    days [None] for the empty string the inputs keep when they are empty,
    or the whole number they hold. *)
Record fields := Fields {
  city : jsstring;
  budget : option Z;
  inputDays : option Z
}.

(** [!n || n <= 0] *)
Definition missing (n : option Z) : bool :=
  match n with
  | None => true
  | Some z => (z =? 0) || (z <=? 0)
  end.

(** [Number(n)] *)
Definition Number (n : option Z) : Z := default 0 n.

(** The form is complete: a city that is not blank, and a budget and a
    number of days above 0. *)
Definition complete (f : fields) : Prop :=
  trim (city f) <> [] /\
  (exists b, budget f = Some b /\ 0 < b) /\
  (exists d, inputDays f = Some d /\ 0 < d).

(** What a submit did: the state it left, its [alert]s, and the prompts
    sent to the model with the lines given to [console.warn]. *)
Record submitted := Submitted {
  state : page;
  alerts : list jsstring;
  sent : list jsstring;
  warned : list jsstring
}.

Section Form.

Variable E : engine.
Variable H : host.
Variable apiKey : option jsstring.
Variable model : nat -> jsstring -> completion jsstring.

(** [handleSubmit] (lines 422-463), as its own calls of the setters leave
    the state; [None] when the loop of [generateItinerary] was not given
    iterations enough. *)
Definition handleSubmit (f : fields) (st : page) : option submitted :=
  if negb (Js.truthy (Some (JStr (trim (city f))))) then
    Some (Submitted st [u "Please enter a city name"] [] [])
  else if missing (budget f) then
    Some (Submitted st [u "Please enter a valid budget amount"] [] [])
  else if missing (inputDays f) then
    Some (Submitted st [u "Please enter the number of days"] [] [])
  else
    let d := clamp (Number (inputDays f)) 1 21 in
    match Gemini.generateItinerary E apiKey model (trim (city f))
            (number_toString H (Number (budget f)) 0) d with
    | None => None
    | Some r =>
        match Gemini.outcome r with
        | Normal res =>
            Some (Submitted (Page res d 0 (Some JNull) (Some JNull) false) []
                            (Gemini.prompts r) (Gemini.warnings r))
        | Throw err =>
            Some (Submitted (Page [] 0 0 (Some JNull) (Some JNull) false) []
                            (Gemini.prompts r) (Gemini.warnings r))
        end
    end.

End Form.

(** *** The labels of a stop (lines 500-508) *)

Definition times : list jsstring :=
  [u "Morning"; u "Afternoon"; u "Evening"; u "Morning"; u "Afternoon"; u "Evening"].

Definition durations : list jsstring :=
  [u "2 hours"; u "2 hours"; u "2 hours"; u "3 hours"; u "4 hours"; u "3 hours"].

(** [getTimeOfDay(index)], for the index of an element of an array;
    [None] is [undefined]. *)
Definition getTimeOfDay (index : nat) : option jsstring :=
  times !! (index mod length times)%nat.

(** [getDuration(index)] *)
Definition getDuration (index : nat) : option jsstring :=
  durations !! (index mod length durations)%nat.

End Home.

(** ** Sample pages and forms *)

Module PageSamples.

(** A host that prints whole numbers in decimal. *)
Definition ascii_host : Home.host :=
  {| Home.number_toString := fun m e => of_Z (m * 10 ^ e) |}.

(** A page that has not been used. *)
Definition new_page : Home.page := Home.Page [] 0 0 (Some JNull) (Some JNull) false.

(** A form for three weeks in Kyoto, and more. *)
Definition kyoto_form : Home.fields := Home.Fields (u " Kyoto ") (Some 900) (Some 40).

End PageSamples.

(** * Properties *)

(** ** The host functions on some inputs *)

Example of_Z_examples :
  of_Z 0 = u "0" /\ of_Z 10 = u "10" /\ of_Z (-7) = u "-7".
Proof. repeat split; reflexivity. Qed.

Example trim_example : trim (u "  [1]
 ") = u "[1]".
Proof. reflexivity. Qed.

Example remove_all_example :
  remove_all (u "```") (remove_all (u "```json") (u "a ```json
 [1]
``` b"))
  = u "a [1]
b".
Proof. reflexivity. Qed.

Example match_array_example :
  match_array (u "x [a] y ] z") = Some (u "[a] y ]") /\
  match_array (u "] x [ y") = None.
Proof. split; reflexivity. Qed.

Example parse_text_values :
  parse_text (q "[ {'n': -12.50e1, 'ok': [true, null], 'e': {}} ]")
  = Some (Some (JArr [JObj [ (u "n", JNum (-1250) (-1));
                             (u "ok", JArr [JBool true; JNull]);
                             (u "e", JObj []) ]])) /\
  parse_text (q "'a\u0041\n'") = Some (Some (JStr [97; 65; 10]%N)) /\
  parse_text Samples.one_day = Some (Some (JArr Samples.one_day_plan)).
Proof. repeat split; vm_compute; reflexivity. Qed.

Example parse_text_errors :
  Forall (fun src => parse_text src = Some None)
    [ u ""; u "[1,]"; u "01"; u "1."; u "-"; u "1e"; u "nul"; u "[1] x";
      q "{'a' 1}"; q "{'a': 1,}"; q "'a"; q "'\x'"; u "[draft]: []" ].
Proof. repeat constructor. Qed.

Example truthy_examples :
  Js.truthy (Some (JNum 0 5)) = false /\ Js.truthy (Some (JNum 5 (-400))) = false /\
  Js.truthy (Some (JNum 5 (-300))) = true /\ Js.truthy (Some (JStr [])) = false /\
  Js.truthy (Some (JArr [])) = true /\ Js.truthy None = false.
Proof. repeat split; vm_compute; reflexivity. Qed.

Example own_property_last_wins :
  (obj <- JSON_parse Samples.v8 (q "{'a': 1, 'b': 2, 'a': 3}") ;;
   Js.get Samples.v8 (u "obj") (Some obj) (u "a"))
  = Normal (Some (JNum 3 0)).
Proof. reflexivity. Qed.

Example encode_examples :
  Uri.encode (u "Eiffel Tower & co/2") = Some (u "Eiffel%20Tower%20%26%20co%2F2") /\
  Uri.encode [233; 8364; 55357; 56832]%N = Some (u "%C3%A9%E2%82%AC%F0%9F%98%80") /\
  Uri.encode [55357]%N = None /\ Uri.encode [56832; 97]%N = None.
Proof. repeat split; reflexivity. Qed.

(** ** [JSON.parse] never runs out of budget *)

Lemma dropWhile_length {A} (p : A -> bool) (s : list A) :
  (length (dropWhile p s) <= length s)%nat.
Proof. induction s as [|c r IH]; simpl; [lia|]. destruct (p c); simpl; lia. Qed.

Lemma skip_ws_cons s c r :
  skip_ws s = c :: r -> (length r < length s)%nat.
Proof.
  intros H. pose proof (dropWhile_length is_ws s) as L.
  unfold skip_ws in H. rewrite H in L. simpl in L. lia.
Qed.

Lemma digits_length s : forall acc n v k r,
  digits s acc n = (v, k, r) -> (length r <= length s)%nat.
Proof.
  induction s as [|c s IH]; simpl; intros acc n v k r H.
  - inversion H; subst; simpl; lia.
  - destruct (is_digit c).
    + apply IH in H. lia.
    + inversion H; subst; simpl; lia.
Qed.

Lemma parse_int_tame s : tame s (parse_int s).
Proof.
  destruct s as [|c r]; simpl; [exact I|].
  destruct (c =? 48)%N; simpl; [lia|].
  destruct (is_digit c); simpl; [|exact I].
  destruct (digits r (digit_value c) 1) as [[v k] r'] eqn:D.
  apply digits_length in D. simpl. lia.
Qed.

Lemma parse_frac_tame i s : tame s (parse_frac i s).
Proof.
  destruct s as [|c r]; simpl; [lia|].
  destruct (c =? 46)%N; simpl; [|lia].
  destruct (digits r i 0) as [[v k] r'] eqn:D.
  apply digits_length in D. destruct (k =? 0); simpl; [exact I|lia].
Qed.

Lemma parse_exp_tame s : tame s (parse_exp s).
Proof.
  destruct s as [|c r]; simpl; [lia|].
  destruct ((c =? 101) || (c =? 69))%N; simpl; [|lia].
  destruct r as [|d r']; simpl.
  - exact I.
  - destruct (d =? 45)%N; [|destruct (d =? 43)%N].
    all: match goal with |- context [digits ?x ?a ?b] =>
           destruct (digits x a b) as [[v k] r2] eqn:D end;
         apply digits_length in D; simpl in D;
         destruct (k =? 0); simpl; [exact I|lia].
Qed.

Lemma parse_number_tame s : tame s (parse_number s).
Proof.
  unfold parse_number.
  assert (H : forall s1, (length s1 <= length s)%nat ->
     tame s match parse_int s1 with
       | POk i s2 =>
           match parse_frac i s2 with
           | POk (m, nfrac) s3 =>
               match parse_exp s3 with
               | POk e s4 => POk (JNum (if false then - m else m) (e - nfrac)) s4
               | PSyntax => PSyntax
               | PFuel => PFuel
               end
           | PSyntax => PSyntax
           | PFuel => PFuel
           end
       | PSyntax => PSyntax
       | PFuel => PFuel
       end).
  { intros s1 L. pose proof (parse_int_tame s1) as T1.
    destruct (parse_int s1) as [i s2| |]; simpl in *; try easy.
    pose proof (parse_frac_tame i s2) as T2.
    destruct (parse_frac i s2) as [[m nf] s3| |]; simpl in *; try easy.
    pose proof (parse_exp_tame s3) as T3.
    destruct (parse_exp s3) as [e s4| |]; simpl in *; try easy. lia. }
  destruct s as [|c r].
  - apply (H []); simpl; lia.
  - destruct (c =? 45)%N.
    + specialize (H r ltac:(simpl; lia)).
      destruct (parse_int r) as [i s2| |]; simpl in *; try easy.
      destruct (parse_frac i s2) as [[m nf] s3| |]; simpl in *; try easy.
      destruct (parse_exp s3) as [e s4| |]; simpl in *; easy.
    + apply (H (c :: r)); lia.
Qed.

Lemma parse_chars_tame s : forall acc, tame s (parse_chars s acc).
Proof.
  remember (length s) as n eqn:Hn. revert s Hn.
  induction n as [n IH0] using lt_wf_ind. intros s Hn acc.
  assert (IH : forall r, (length r < length s)%nat ->
                 forall acc, tame r (parse_chars r acc)).
  { intros r L. apply (IH0 (length r)); [lia | reflexivity]. }
  clear IH0 Hn. destruct s as [|c r]; simpl; [exact I|].
  destruct (c =? 34)%N; simpl; [lia|].
  destruct (c =? 92)%N.
  - destruct r as [|e r1]; simpl; [exact I|].
    destruct (e =? 117)%N.
    + destruct r1 as [|h1 [|h2 [|h3 [|h4 r2]]]]; simpl; try exact I.
      destruct (hex4 h1 h2 h3 h4) as [x|]; simpl; [|exact I].
      specialize (IH r2 ltac:(simpl; lia) (x :: acc)).
      destruct (parse_chars r2 (x :: acc)); simpl in *; try easy. lia.
    + destruct (simple_escape e) as [x|]; simpl; [|exact I].
      specialize (IH r1 ltac:(simpl; lia) (x :: acc)).
      destruct (parse_chars r1 (x :: acc)); simpl in *; try easy. lia.
  - destruct (c <? 32)%N; simpl; [exact I|].
    specialize (IH r ltac:(simpl; lia) (c :: acc)).
    destruct (parse_chars r (c :: acc)); simpl in *; try easy. lia.
Qed.

Lemma parse_keyword_tame s : tame s (parse_keyword s).
Proof.
  unfold parse_keyword.
  repeat match goal with |- context [if ?b then _ else _] => destruct b end;
    simpl; try exact I; rewrite length_drop; lia.
Qed.

Lemma tame_weaken {A} (s s' : jsstring) (p : parsed A) :
  tame s p -> (length s <= length s')%nat -> tame s' p.
Proof. destruct p; simpl; lia. Qed.

Lemma parse_fuel (fuel : nat) :
  (forall s, (2 * length s < fuel)%nat -> tame s (parse_value fuel s)) /\
  (forall s acc, (2 * length s + 1 < fuel)%nat -> tame s (parse_elements fuel s acc)) /\
  (forall s acc, (2 * length s + 1 < fuel)%nat -> tame s (parse_members fuel s acc)).
Proof.
  induction fuel as [|fuel (IHv & IHe & IHm)]; [repeat split; intros; lia|].
  split; [|split].
  - intros s L. simpl.
    destruct (skip_ws s) as [|c r] eqn:W; [exact I|].
    apply skip_ws_cons in W.
    destruct (c =? 91)%N.
    { destruct (skip_ws r) as [|d r'] eqn:W'; [exact I|].
      apply skip_ws_cons in W'.
      destruct (d =? 93)%N; [simpl; lia|].
      eapply tame_weaken; [apply IHe|]; lia. }
    destruct (c =? 123)%N.
    { destruct (skip_ws r) as [|d r'] eqn:W'; [exact I|].
      apply skip_ws_cons in W'.
      destruct (d =? 125)%N; [simpl; lia|].
      eapply tame_weaken; [apply IHm|]; lia. }
    destruct (c =? 34)%N.
    { pose proof (parse_chars_tame r []) as T.
      destruct (parse_chars r []); simpl in *; try easy. lia. }
    destruct ((c =? 45)%N || is_digit c).
    + eapply tame_weaken; [apply parse_number_tame|simpl; lia].
    + eapply tame_weaken; [apply parse_keyword_tame|simpl; lia].
  - intros s acc L. simpl.
    specialize (IHv s ltac:(lia)).
    destruct (parse_value fuel s) as [v r| |]; simpl in *; try easy.
    destruct (skip_ws r) as [|c r'] eqn:W; [exact I|].
    apply skip_ws_cons in W.
    destruct (c =? 44)%N.
    { eapply tame_weaken; [apply IHe|]; lia. }
    destruct (c =? 93)%N; simpl; [lia|exact I].
  - intros s acc L. simpl.
    destruct (skip_ws s) as [|q0 r] eqn:W; [exact I|].
    apply skip_ws_cons in W.
    destruct (q0 =? 34)%N; [|exact I].
    pose proof (parse_chars_tame r []) as T.
    destruct (parse_chars r []) as [k r1| |]; simpl in *; try easy.
    destruct (skip_ws r1) as [|c r2] eqn:W1; [exact I|].
    apply skip_ws_cons in W1.
    destruct (c =? 58)%N; [|exact I].
    specialize (IHv r2 ltac:(lia)).
    destruct (parse_value fuel r2) as [v r3| |]; simpl in *; try easy.
    destruct (skip_ws r3) as [|d r4] eqn:W3; [exact I|].
    apply skip_ws_cons in W3.
    destruct (d =? 44)%N.
    { eapply tame_weaken; [apply IHm|]; lia. }
    destruct (d =? 125)%N; simpl; [lia|exact I].
Qed.

Lemma parse_text_total (src : jsstring) : parse_text src <> None.
Proof.
  unfold parse_text.
  pose proof (proj1 (parse_fuel (enough src)) src ltac:(unfold enough; lia)) as T.
  destruct (parse_value (enough src) src) as [v r| |]; simpl in T; try easy.
  destruct (skip_ws r); easy.
Qed.

(** [JSON.parse] returns or throws; the budget of the parser never runs
    out. *)
Lemma JSON_parse_total (E : engine) (src : jsstring) :
  (exists v, parse_text src = Some (Some v) /\ JSON_parse E src = Normal v) \/
  (parse_text src = Some None /\
   JSON_parse E src = Throw (Exn SyntaxError (syntax_error_message E src))).
Proof.
  unfold JSON_parse. pose proof (parse_text_total src) as Htotal.
  destruct (parse_text src) as [[v|]|]; [left; eauto | right; auto | contradiction].
Qed.
(** ** The loop over the windows *)

Section GeneratorFacts.

Variable E : engine.
Variable apiKey : option jsstring.
Variable model : nat -> jsstring -> completion jsstring.
Variables city budget : jsstring.
Variable days : Z.

Let window := Gemini.window E model city budget days.
Let window_prompt := Gemini.window_prompt city budget days.
Let chunks := Gemini.chunks E model.

Lemma window_start_succ (k : nat) :
  Gemini.window_start (S k) = Gemini.window_start k + Gemini.CHUNK_SIZE.
Proof. unfold Gemini.window_start, Gemini.CHUNK_SIZE. lia. Qed.

(** The loop runs its [k]-th iteration exactly for [k < window_count]. *)
Lemma window_in_range (k : nat) :
  Gemini.window_start k <= days <-> (k < Gemini.window_count days)%nat.
Proof.
  unfold Gemini.window_start, Gemini.window_count, Gemini.CHUNK_SIZE.
  destruct (Z_lt_le_dec (days + 7 - 1) 0) as [Hneg|Hpos].
  - rewrite Z2Nat.nonpos by (apply Z.lt_le_incl, Z.div_lt_upper_bound; lia). lia.
  - pose proof (Z.div_pos (days + 7 - 1) 7 Hpos ltac:(lia)) as Hq.
    pose proof (Z.mul_div_le (days + 7 - 1) 7 ltac:(lia)).
    pose proof (Z.mul_succ_div_gt (days + 7 - 1) 7 ltac:(lia)).
    split; intros H'; [|lia].
    apply Nat2Z.inj_lt. rewrite Z2Nat.id by assumption. lia.
Qed.

Lemma window_count_le_days : (Gemini.window_count days <= Z.to_nat days)%nat.
Proof.
  unfold Gemini.window_count, Gemini.CHUNK_SIZE.
  destruct (Z_lt_le_dec days 1) as [Hneg|Hpos].
  - rewrite Z2Nat.nonpos; [lia|].
    apply Z.lt_succ_r, Z.div_lt_upper_bound; lia.
  - apply Z2Nat.inj_le; [apply Z.div_pos; lia | lia |].
    apply Z.div_le_upper_bound; lia.
Qed.

(** One iteration of the loop, at the start of the [k]-th window and with
    [k] requests made. *)
Lemma chunks_step (fuel k : nat) (sent : list jsstring) (acc : list JSON) :
  length sent = k ->
  Gemini.window_start k <= days ->
  chunks (S fuel) city budget days (Gemini.window_start k) sent acc =
  match window k with
  | Normal chunk =>
      chunks fuel city budget days (Gemini.window_start (S k))
             (sent ++ [window_prompt k]) (acc ++ chunk)
  | Throw err => (Some (Throw err), sent ++ [window_prompt k])
  end.
Proof.
  intros Hlen Hin. subst chunks window window_prompt. cbn [Gemini.chunks].
  apply Z.leb_le in Hin. rewrite Hin. rewrite Hlen, window_start_succ.
  reflexivity.
Qed.

Lemma chunks_done (fuel k : nat) (sent : list jsstring) (acc : list JSON) :
  ~ Gemini.window_start k <= days ->
  chunks fuel city budget days (Gemini.window_start k) sent acc = (Some (Normal acc), sent).
Proof.
  intros Hout. apply Z.leb_nle in Hout. subst chunks.
  destruct fuel; cbn [Gemini.chunks]; rewrite Hout; reflexivity.
Qed.

(** The loop when the windows [j .. j+m-1] give chunks and window [j+m]
    raises [e]. *)
Lemma chunks_fail_at (m : nat) : forall (fuel j : nat) sent acc e,
  length sent = j ->
  (forall i, (i < m)%nat -> exists c, window (j + i)%nat = Normal c) ->
  window (j + m)%nat = Throw e ->
  Gemini.window_start (j + m)%nat <= days ->
  (m < fuel)%nat ->
  chunks fuel city budget days (Gemini.window_start j) sent acc =
  (Some (Throw e), sent ++ map window_prompt (seq j (S m))).
Proof.
  induction m as [|m IH]; intros fuel j sent acc e Hlen Hok Hfail Hin Hfuel.
  - destruct fuel as [|fuel]; [lia|]. rewrite Nat.add_0_r in *.
    rewrite chunks_step by assumption. rewrite Hfail. reflexivity.
  - destruct fuel as [|fuel]; [lia|].
    assert (Hj : Gemini.window_start j <= days).
    { unfold Gemini.window_start, Gemini.CHUNK_SIZE in *. lia. }
    rewrite chunks_step by assumption.
    destruct (Hok O ltac:(lia)) as [c Hc]. rewrite Nat.add_0_r in Hc. rewrite Hc.
    rewrite (IH fuel (S j) _ _ e).
    + rewrite <- app_assoc. reflexivity.
    + rewrite length_app. simpl. lia.
    + intros i Hi. destruct (Hok (S i) ltac:(lia)) as [c' Hc'].
      exists c'. rewrite <- Hc'. f_equal. lia.
    + rewrite <- Hfail. f_equal. lia.
    + replace (S j + m)%nat with (j + S m)%nat by lia. assumption.
    + lia.
Qed.

(** The loop when all the windows from [j] on give chunks. *)
Lemma chunks_all (n : nat) : forall (fuel j : nat) sent acc (cs : nat -> list JSON),
  length sent = j ->
  (j + n)%nat = Gemini.window_count days ->
  (forall i, (i < n)%nat -> window (j + i)%nat = Normal (cs (j + i)%nat)) ->
  (n <= fuel)%nat ->
  chunks fuel city budget days (Gemini.window_start j) sent acc =
  (Some (Normal (acc ++ concat (map cs (seq j n)))),
   sent ++ map window_prompt (seq j n)).
Proof.
  induction n as [|n IH]; intros fuel j sent acc cs Hlen Hcount Hok Hfuel.
  - rewrite chunks_done.
    + simpl. rewrite !app_nil_r. reflexivity.
    + rewrite window_in_range. lia.
  - destruct fuel as [|fuel]; [lia|].
    rewrite chunks_step; [|assumption|apply window_in_range; lia].
    pose proof (Hok O ltac:(lia)) as Hc. rewrite Nat.add_0_r in Hc. rewrite Hc.
    rewrite (IH fuel (S j) _ _ cs).
    + simpl. rewrite <- !app_assoc. reflexivity.
    + rewrite length_app. simpl. lia.
    + lia.
    + intros i Hi. replace (S j + i)%nat with (j + S i)%nat by lia.
      apply Hok. lia.
    + lia.
Qed.

(** Either every window up to [n] gives a chunk, or there is a first one
    that raises an error. *)
Lemma first_failure (n : nat) :
  (exists cs : nat -> list JSON, forall k, (k < n)%nat -> window k = Normal (cs k)) \/
  (exists k e, (k < n)%nat /\
     (forall j, (j < k)%nat -> exists c, window j = Normal c) /\ window k = Throw e).
Proof.
  induction n as [|n [[cs Hcs]|(k & e & Hk & Hbefore & Hfail)]].
  - left. exists (fun _ => []). intros k Hk. lia.
  - destruct (window n) as [c|e] eqn:Hn.
    + left. exists (fun k => if decide (k = n) then c else cs k).
      intros k Hk. destruct (decide (k = n)) as [->|Hne]; [assumption|].
      apply Hcs. lia.
    + right. exists n, e. split; [lia|]. split; [|assumption].
      intros j Hj. exists (cs j). apply Hcs. assumption.
  - right. exists k, e. split; [lia|]. split; assumption.
Qed.

End GeneratorFacts.

(** ** [generateItinerary] as a whole *)

Section GenerateFacts.

Variable E : engine.
Variable apiKey : option jsstring.
Variable model : nat -> jsstring -> completion jsstring.
Variables city budget : jsstring.
Variable days : Z.

Hypothesis configured : Js.truthy (JStr <$> apiKey) = true.

Let window := Gemini.window E model city budget days.
Let window_prompt := Gemini.window_prompt city budget days.

(** A window in range that raises an error, after windows that all gave
    chunks, ends the run with the fallback plan. *)
Lemma generateItinerary_fails_at (k : nat) (e : exn) :
  Gemini.window_start k <= days ->
  (forall j, (j < k)%nat -> exists c, window j = Normal c) ->
  window k = Throw e ->
  Gemini.generateItinerary E apiKey model city budget days =
  Some (Gemini.Run (Normal (Gemini.fallback (message e)))
                   (map window_prompt (seq 0 (S k))) []).
Proof.
  intros Hin Hbefore Hfail.
  unfold Gemini.generateItinerary, Gemini.generateItinerary_within.
  rewrite configured. cbn [negb].
  change 1 with (Gemini.window_start 0).
  rewrite (chunks_fail_at E model city budget days k (Z.to_nat days) 0 [] [] e);
    try assumption; try reflexivity.
  pose proof (proj1 (window_in_range days k) Hin).
  pose proof (window_count_le_days days). lia.
Qed.

(** When every window gives a chunk, the run ends with the chunks put
    together, in order. *)
Lemma generateItinerary_all_windows (cs : nat -> list JSON) :
  (forall k, (k < Gemini.window_count days)%nat -> window k = Normal (cs k)) ->
  let fullItinerary := concat (map cs (seq 0 (Gemini.window_count days))) in
  Gemini.generateItinerary E apiKey model city budget days =
  Some (Gemini.Run (Normal fullItinerary)
                   (map window_prompt (seq 0 (Gemini.window_count days)))
                   (if decide (Z.of_nat (length fullItinerary) = days) then []
                    else [Gemini.mismatch_warning days (length fullItinerary)])).
Proof.
  intros Hall full.
  unfold Gemini.generateItinerary, Gemini.generateItinerary_within.
  rewrite configured. cbn [negb].
  change 1 with (Gemini.window_start 0).
  rewrite (chunks_all E model city budget days (Gemini.window_count days)
             (Z.to_nat days) 0 [] [] cs);
    try assumption; try reflexivity.
  apply window_count_le_days.
Qed.

End GenerateFacts.

(** The fallback plan is one day with one stop; the stop's description is
    the fixed text followed by the reason, and the plan passes the
    validation of chunks, whatever the window. *)
Lemma fallback_shape (E : engine) (msg : jsstring) :
  exists day stop,
    Gemini.fallback msg = [day] /\
    Js.get E (u "day") (Some day) (u "title")
    = Normal (Some (JStr (u "Day 1: Default Plan (API Error)"))) /\
    Js.get E (u "day") (Some day) (u "itinerary") = Normal (Some (JArr [stop])) /\
    Js.get E (u "place") (Some stop) (u "description")
    = Normal (Some (JStr (u "Default location because AI parsing failed. Error: " ++ msg))) /\
    u "Default location because AI parsing failed. Error: " ++ msg <> [] /\
    forall start end_,
      Gemini.validate_chunk E (JArr (Gemini.fallback msg)) start end_
      = Normal (Gemini.fallback msg).
Proof.
  eexists _, _. split; [reflexivity|].
  split; [reflexivity|]. split; [reflexivity|]. split; [reflexivity|].
  split; [discriminate|]. intros start end_. reflexivity.
Qed.

(** The windows tile the days from 1 on: each but the last has
    [CHUNK_SIZE] days, the next one starts on the day after, and the last
    one ends on the last day. *)
Lemma windows_tile (days : Z) (k : nat) :
  Gemini.window_start 0 = 1 /\
  ((S k < Gemini.window_count days)%nat ->
     Gemini.window_end days k = Gemini.window_start k + Gemini.CHUNK_SIZE - 1 /\
     Gemini.window_start (S k) = Gemini.window_end days k + 1) /\
  (S k = Gemini.window_count days -> Gemini.window_end days k = days).
Proof.
  split; [reflexivity|]. split.
  - intros Hk. apply window_in_range in Hk.
    unfold Gemini.window_end, Gemini.window_start, Gemini.CHUNK_SIZE in *. lia.
  - intros Hk.
    assert (Hin : Gemini.window_start k <= days) by (apply window_in_range; lia).
    assert (Hout : ~ Gemini.window_start (S k) <= days)
      by (rewrite window_in_range; lia).
    unfold Gemini.window_end, Gemini.window_start, Gemini.CHUNK_SIZE in *. lia.
Qed.

(** The prompt of a window names its first and its last day. *)
Lemma prompt_names_days (city budget : jsstring) (start end_ : Z) :
  exists before after,
    Gemini.prompt city budget start end_
    = before ++ u "Create plans ONLY for days " ++ of_Z start ++ u " to " ++ of_Z end_
      ++ u "." ++ after.
Proof.
  exists (u "Generate a detailed day-by-day travel itinerary for " ++ city
          ++ u " with a budget of " ++ budget ++ u ".

").
  eexists. unfold Gemini.prompt. rewrite <- !app_assoc. reflexivity.
Qed.

(** The requests of a run are the prompts of the windows, in order, up to
    the last window or to the first one that fails. *)
Lemma requests_follow_windows (E : engine) (apiKey : option jsstring)
    (model : nat -> jsstring -> completion jsstring)
    (city budget : jsstring) (days : Z) :
  Js.truthy (JStr <$> apiKey) = true ->
  exists r n,
    Gemini.generateItinerary E apiKey model city budget days = Some r /\
    Gemini.prompts r = map (Gemini.window_prompt city budget days) (seq 0 n) /\
    (n <= Gemini.window_count days)%nat /\
    (forall j, (S j < n)%nat -> exists c, Gemini.window E model city budget days j = Normal c) /\
    (n = Gemini.window_count days \/
     exists k e, n = S k /\ Gemini.window E model city budget days k = Throw e).
Proof.
  intros Hkey.
  destruct (first_failure E model city budget days (Gemini.window_count days))
    as [[cs Hcs]|(k & e & Hk & Hbefore & Hfail)].
  - eexists _, (Gemini.window_count days).
    split; [apply (generateItinerary_all_windows E apiKey model city budget days Hkey cs Hcs)|].
    split; [reflexivity|]. split; [lia|]. split; [|left; reflexivity].
    intros j Hj. exists (cs j). apply Hcs. lia.
  - eexists _, (S k).
    split; [apply (generateItinerary_fails_at E apiKey model city budget days Hkey k e);
            [apply window_in_range|..]; assumption|].
    split; [reflexivity|]. split; [lia|]. split; [|right; eauto].
    intros j Hj. apply Hbefore. lia.
Qed.


(** [generateItinerary] always comes to an end: the iterations it is given
    are enough. *)
Lemma generateItinerary_total (E : engine) (apiKey : option jsstring)
    (model : nat -> jsstring -> completion jsstring)
    (city budget : jsstring) (days : Z) :
  exists r, Gemini.generateItinerary E apiKey model city budget days = Some r.
Proof.
  destruct (Js.truthy (JStr <$> apiKey)) eqn:Hkey.
  - destruct (requests_follow_windows E apiKey model city budget days Hkey)
      as (r & _ & Hrun & _). eauto.
  - unfold Gemini.generateItinerary, Gemini.generateItinerary_within.
    rewrite Hkey. eauto.
Qed.

(** ** Strings: trimming, scanning and slicing *)

Section StringFacts.

Implicit Types (s pre mid post pat : jsstring) (c : N).

Lemma dropWhile_stop {A} (p : A -> bool) (l : list A) (x : A) (r : list A) :
  p x = false -> dropWhile p (l ++ x :: r) = dropWhile p l ++ x :: r.
Proof.
  intros Hx. induction l as [|a l IH]; simpl.
  - rewrite Hx. reflexivity.
  - destruct (p a); [exact IH | reflexivity].
Qed.

Lemma dropWhile_elem {A} (p : A -> bool) (l : list A) (x : A) :
  x ∈ dropWhile p l -> x ∈ l.
Proof.
  induction l as [|a l IH]; simpl; [trivial|].
  destruct (p a); [|trivial]. intros H. right. apply IH, H.
Qed.

(** Trimming takes white space off the two ends only. *)
Lemma trim_around pre mid post (a z : N) :
  is_space a = false -> is_space z = false ->
  trim (pre ++ a :: mid ++ z :: post)
  = trimStart pre ++ a :: mid ++ z :: trimEnd post.
Proof.
  intros Ha Hz. unfold trim, trimStart, trimEnd.
  rewrite dropWhile_stop by assumption.
  replace (dropWhile is_space pre ++ a :: mid ++ z :: post)
    with ((dropWhile is_space pre ++ a :: mid) ++ z :: post)
    by (rewrite <- app_assoc; reflexivity).
  rewrite rev_app_distr. simpl rev at 1.
  rewrite <- app_assoc. simpl.
  rewrite dropWhile_stop by assumption.
  rewrite rev_app_distr. simpl. rewrite rev_involutive.
  rewrite <- !app_assoc. reflexivity.
Qed.

Lemma trimStart_elem s c : c ∈ trimStart s -> c ∈ s.
Proof. apply dropWhile_elem. Qed.

Lemma trimEnd_elem s c : c ∈ trimEnd s -> c ∈ s.
Proof.
  unfold trimEnd. rewrite list_elem_of_In, <- in_rev, <- list_elem_of_In.
  intros H. apply dropWhile_elem in H.
  rewrite list_elem_of_In, <- in_rev, <- list_elem_of_In in H. exact H.
Qed.

(** The scan only deletes. *)
Lemma replace_scan_elem pat s c : forall skip spaces,
  c ∈ replace_scan pat skip spaces s -> c ∈ s.
Proof.
  induction s as [|d r IH]; intros skip spaces; simpl; [trivial|].
  destruct skip as [|k].
  - destruct (spaces && is_space d).
    { intros H. right. eapply IH, H. }
    destruct (startsWith pat (d :: r)).
    { intros H. right. eapply IH, H. }
    rewrite !elem_of_cons. intros [->|H]; [left; reflexivity|].
    right. eapply IH, H.
  - intros H. right. eapply IH, H.
Qed.

(** A match of [pat] cannot reach over a code unit that [pat] lacks. *)
Lemma startsWith_bound pat : forall l (x : N) r,
  startsWith pat (l ++ x :: r) = true -> x ∉ pat -> (length pat <= length l)%nat.
Proof.
  induction pat as [|p pat IH]; intros l x r Hm Hx; simpl; [lia|].
  apply not_elem_of_cons in Hx as [Hne Hx].
  destruct l as [|a l]; simpl in Hm.
  - apply andb_true_iff in Hm as [Hp _]. apply N.eqb_eq in Hp. congruence.
  - apply andb_true_iff in Hm as [_ Hm]. apply IH in Hm; [simpl; lia | assumption].
Qed.

(** Scanning up to a '[' that [pat] lacks: what is left of [pre] comes
    first, and the scan goes on at the '['. *)
Lemma replace_scan_before pat x r : x ∉ pat ->
  forall pre skip spaces, (skip <= length pre)%nat ->
  exists pre' spaces',
    replace_scan pat skip spaces (pre ++ x :: r)
    = pre' ++ replace_scan pat O spaces' (x :: r) /\
    forall c, c ∈ pre' -> c ∈ pre.
Proof.
  intros Hx. induction pre as [|d pre IH]; intros skip spaces Hskip.
  - simpl in Hskip. assert (skip = O) as -> by lia.
    exists [], spaces. split; [reflexivity|]. trivial.
  - cbn [app replace_scan]. destruct skip as [|k].
    + destruct (spaces && is_space d).
      { destruct (IH O true ltac:(lia)) as (pre' & sp' & Heq & Hsub).
        exists pre', sp'. split; [exact Heq|]. intros c Hc. right. auto. }
      destruct (startsWith pat (d :: pre ++ x :: r)) eqn:Hm.
      { apply (startsWith_bound pat (d :: pre) x r) in Hm; [|assumption].
        simpl in Hm.
        destruct (IH (Nat.pred (length pat)) true ltac:(lia)) as (pre' & sp' & Heq & Hsub).
        exists pre', sp'. split; [exact Heq|]. intros c Hc. right. auto. }
      destruct (IH O false ltac:(lia)) as (pre' & sp' & Heq & Hsub).
      exists (d :: pre'), sp'. split; [simpl; rewrite Heq; reflexivity|].
      intros c. rewrite !elem_of_cons. intros [->|Hc]; auto.
    + simpl in Hskip.
      destruct (IH k true ltac:(lia)) as (pre' & sp' & Heq & Hsub).
      exists pre', sp'. split; [exact Heq|]. intros c Hc. right. auto.
Qed.

(** Scanning text at no place of which [pat] matches: nothing is
    deleted. *)
Lemma replace_scan_plain pat s rest :
  (forall t1 t2, s = t1 ++ t2 -> t2 <> [] -> startsWith pat (t2 ++ rest) = false) ->
  replace_scan pat O false (s ++ rest) = s ++ replace_scan pat O false rest.
Proof.
  induction s as [|d s IH]; intros Hs; [reflexivity|].
  cbn [app replace_scan andb].
  pose proof (Hs [] (d :: s) eq_refl ltac:(discriminate)) as Hd.
  cbn [app] in Hd. rewrite Hd.
  rewrite IH; [reflexivity|].
  intros t1 t2 -> Ht2. apply (Hs (d :: t1) t2 eq_refl Ht2).
Qed.

Lemma includes_suffix pat t1 t2 :
  startsWith pat t2 = true -> includes pat (t1 ++ t2) = true.
Proof.
  intros H. induction t1 as [|c t1 IH].
  - destruct t2; cbn [app includes]; rewrite H; reflexivity.
  - cbn [app includes]. rewrite IH. apply orb_true_r.
Qed.

Lemma startsWith_app pat1 pat2 s :
  startsWith (pat1 ++ pat2) s = true -> startsWith pat1 s = true.
Proof.
  revert s. induction pat1 as [|p pat1 IH]; intros s; [reflexivity|].
  destruct s as [|c s]; cbn [app startsWith]; [trivial|].
  rewrite !andb_true_iff. intros [Hp H]. split; [assumption | apply IH, H].
Qed.

(** A code fence cannot start inside text that holds none and ends in a
    ']'. *)
Lemma no_fence_inside tail mid rest t1 t2 :
  includes (u "```") mid = false ->
  mid ++ [rbracket] = t1 ++ t2 -> t2 <> [] ->
  startsWith (u "```" ++ tail) (t2 ++ rest) = false.
Proof.
  intros Hmid Heq Ht2.
  destruct (startsWith (u "```" ++ tail) (t2 ++ rest)) eqn:Hm; [|reflexivity].
  apply startsWith_app in Hm.
  destruct (exists_last Ht2) as (t2' & z & ->).
  rewrite app_assoc in Heq. apply app_inj_tail in Heq as [-> <-].
  assert (Hfence : startsWith (u "```") t2' = true).
  { destruct t2' as [|a [|b [|c t]]]; cbn in Hm |- *;
      repeat (apply andb_true_iff in Hm as [? Hm]); try discriminate.
    repeat (apply andb_true_iff; split); trivial. }
  rewrite (includes_suffix (u "```") t1 t2' Hfence) in Hmid. discriminate.
Qed.

(** Removing code fences leaves an array that holds none as it is, and
    adds no '[' before it and no ']' after it. *)
Lemma remove_all_keeps_array tail pre mid post :
  lbracket ∉ (u "```" ++ tail) ->
  lbracket ∉ pre -> includes (u "```") mid = false -> rbracket ∉ post ->
  exists pre' post',
    remove_all (u "```" ++ tail) (pre ++ lbracket :: mid ++ rbracket :: post)
    = pre' ++ lbracket :: mid ++ rbracket :: post' /\
    (lbracket ∉ pre') /\ (rbracket ∉ post').
Proof.
  intros Hpat Hpre Hmid Hpost. unfold remove_all.
  destruct (replace_scan_before (u "```" ++ tail) lbracket (mid ++ rbracket :: post) Hpat
              pre O false ltac:(lia)) as (pre' & sp' & Heq & Hsub).
  exists pre', (replace_scan (u "```" ++ tail) O false post).
  split; [|split].
  - rewrite Heq. f_equal.
    cbn [replace_scan]. replace (sp' && is_space lbracket) with false
      by (destruct sp'; reflexivity).
    change (startsWith (u "```" ++ tail) (lbracket :: mid ++ rbracket :: post))
      with false.
    f_equal.
    replace (mid ++ rbracket :: post) with ((mid ++ [rbracket]) ++ post)
      by (rewrite <- app_assoc; reflexivity).
    rewrite replace_scan_plain.
    + rewrite <- app_assoc. reflexivity.
    + intros t1 t2. apply no_fence_inside. assumption.
  - intros H. apply Hpre, Hsub, H.
  - intros H. apply Hpost. eapply replace_scan_elem, H.
Qed.

Lemma index_from_app c pre r : forall i,
  c ∉ pre -> index_from c (pre ++ c :: r) i = i + Z.of_nat (length pre).
Proof.
  induction pre as [|d pre IH]; intros i Hpre; simpl.
  - rewrite N.eqb_refl. lia.
  - apply not_elem_of_cons in Hpre as [Hne Hpre].
    destruct (d =? c)%N eqn:Hd; [apply N.eqb_eq in Hd; congruence|].
    rewrite IH by assumption. lia.
Qed.

Lemma index_from_none c s : forall i, c ∉ s -> index_from c s i = -1.
Proof.
  induction s as [|d s IH]; intros i Hs; simpl; [reflexivity|].
  apply not_elem_of_cons in Hs as [Hne Hs].
  destruct (d =? c)%N eqn:Hd; [apply N.eqb_eq in Hd; congruence|].
  apply IH, Hs.
Qed.

Lemma last_index_from_none c s : forall i found,
  c ∉ s -> last_index_from c s i found = found.
Proof.
  induction s as [|d s IH]; intros i found Hs; simpl; [reflexivity|].
  apply not_elem_of_cons in Hs as [Hne Hs].
  destruct (d =? c)%N eqn:Hd; [apply N.eqb_eq in Hd; congruence|].
  apply IH, Hs.
Qed.

Lemma last_index_from_app c pre post : forall i found,
  c ∉ post ->
  last_index_from c (pre ++ c :: post) i found = i + Z.of_nat (length pre).
Proof.
  induction pre as [|d pre IH]; intros i found Hpost; simpl.
  - rewrite N.eqb_refl. rewrite last_index_from_none by assumption. lia.
  - rewrite IH by assumption. lia.
Qed.

(** Where the first and the last occurrence are. *)
Lemma indexOf_app c pre r : c ∉ pre -> indexOf c (pre ++ c :: r) = Z.of_nat (length pre).
Proof. intros H. unfold indexOf. rewrite index_from_app by assumption. lia. Qed.

Lemma lastIndexOf_app c pre post :
  c ∉ post -> lastIndexOf c (pre ++ c :: post) = Z.of_nat (length pre).
Proof. intros H. unfold lastIndexOf. rewrite last_index_from_app by assumption. lia. Qed.

Lemma indexOf_none c s : c ∉ s -> indexOf c s = -1.
Proof. apply index_from_none. Qed.

Lemma lastIndexOf_none c s : c ∉ s -> lastIndexOf c s = -1.
Proof. apply last_index_from_none. Qed.

(** A list splits at the first, and at the last, occurrence of a member. *)
Lemma split_first c s : c ∈ s -> exists pre r, s = pre ++ c :: r /\ c ∉ pre.
Proof.
  induction s as [|d s IH]; intros H; [inversion H|].
  destruct (decide (d = c)) as [->|Hne].
  - exists [], s. split; [reflexivity | apply not_elem_of_nil].
  - apply elem_of_cons in H as [->|H]; [congruence|].
    destruct (IH H) as (pre & r & -> & Hpre).
    exists (d :: pre), r. split; [reflexivity|].
    apply not_elem_of_cons. split; [congruence | assumption].
Qed.

Lemma split_last c s : c ∈ s -> exists pre post, s = pre ++ c :: post /\ c ∉ post.
Proof.
  induction s as [|d s IH]; intros H; [inversion H|].
  destruct (decide (c ∈ s)) as [Hin|Hnot].
  - destruct (IH Hin) as (pre & post & -> & Hpost).
    exists (d :: pre), post. split; [reflexivity | assumption].
  - apply elem_of_cons in H as [->|H]; [|contradiction].
    exists [], s. split; [reflexivity | assumption].
Qed.

(** The slice between two positions. *)
Lemma substring_mid pre mid post :
  substring (pre ++ mid ++ post) (Z.of_nat (length pre))
            (Z.of_nat (length pre) + Z.of_nat (length mid)) = mid.
Proof.
  unfold substring. rewrite !length_app.
  replace (Z.min (Z.max (Z.of_nat (length pre)) 0)
             (Z.of_nat (length pre + (length mid + length post))))
    with (Z.of_nat (length pre)) by lia.
  replace (Z.min (Z.max (Z.of_nat (length pre) + Z.of_nat (length mid)) 0)
             (Z.of_nat (length pre + (length mid + length post))))
    with (Z.of_nat (length pre + length mid)) by lia.
  replace (Z.min (Z.of_nat (length pre)) (Z.of_nat (length pre + length mid)))
    with (Z.of_nat (length pre)) by lia.
  replace (Z.max (Z.of_nat (length pre)) (Z.of_nat (length pre + length mid))
           - Z.of_nat (length pre))
    with (Z.of_nat (length mid)) by lia.
  rewrite !Nat2Z.id, drop_app_length, take_app_length. reflexivity.
Qed.

End StringFacts.

(** ** The extraction of the JSON text *)

(** A property that a computation decides. *)
Ltac by_computation := apply (bool_decide_unpack _); vm_compute; exact I.

(** Both sides are the same concatenation, put in brackets differently. *)
Ltac same_concat :=
  repeat (progress (rewrite <- ?app_assoc; cbn [app])); reflexivity.

Section ExtractionFacts.

Implicit Types (s pre mid post : jsstring).

(** On a text from a '[' to a ']' the regular expression matches all of
    it. *)
Lemma match_array_bracketed mid :
  match_array (lbracket :: mid ++ [rbracket]) = Some (lbracket :: mid ++ [rbracket]).
Proof.
  destruct mid as [|d mid]; [reflexivity|].
  cbn [match_array match_array_here]. change (lbracket =? lbracket)%N with true.
  cbn iota.
  change ((d :: mid) ++ [rbracket]) with ((d :: mid) ++ rbracket :: []).
  rewrite lastIndexOf_app by apply not_elem_of_nil.
  destruct (Z.of_nat (length (d :: mid)) =? -1) eqn:Hneg;
    [apply Z.eqb_eq in Hneg; lia|].
  replace (Z.to_nat (Z.of_nat (length (d :: mid)) + 1))
    with (length ((d :: mid) ++ [rbracket]))
    by (rewrite length_app; simpl; lia).
  rewrite firstn_all. reflexivity.
Qed.

(** Where the regular expression matches, a '[' comes before a ']'. *)
Lemma match_array_inv s m :
  match_array s = Some m ->
  exists pre mid post, s = pre ++ lbracket :: mid ++ rbracket :: post.
Proof.
  induction s as [|c r IH]; [discriminate|].
  cbn [match_array match_array_here].
  destruct (c =? lbracket)%N eqn:Hc.
  - apply N.eqb_eq in Hc. subst c.
    destruct (lastIndexOf rbracket r =? -1) eqn:Hj.
    + intros H. destruct (IH H) as (pre & mid & post & ->).
      exists (lbracket :: pre), mid, post. reflexivity.
    + intros _. destruct (decide (rbracket ∈ r)) as [Hin|Hnot].
      * apply split_first in Hin as (mid & post & -> & _).
        exists [], mid, post. reflexivity.
      * rewrite lastIndexOf_none in Hj by assumption. discriminate.
  - intros H. destruct (IH H) as (pre & mid & post & ->).
    exists (c :: pre), mid, post. reflexivity.
Qed.

(** A text with a '[' before a ']' splits at its first '[' and its last
    ']'. *)
Lemma split_brackets pre mid post :
  exists pre' mid' post',
    pre ++ lbracket :: mid ++ rbracket :: post
    = pre' ++ lbracket :: mid' ++ rbracket :: post' /\
    (lbracket ∉ pre') /\ (rbracket ∉ post').
Proof.
  destruct (decide (lbracket ∈ pre)) as [Hin|Hpre].
  - apply split_first in Hin as (pre' & r & -> & Hpre').
    destruct (decide (rbracket ∈ post)) as [Hin|Hpost].
    + apply split_last in Hin as (x & post' & -> & Hpost').
      exists pre', (r ++ lbracket :: mid ++ rbracket :: x), post'.
      split; [|split; assumption].
      same_concat.
    + exists pre', (r ++ lbracket :: mid), post.
      split; [|split; assumption].
      same_concat.
  - destruct (decide (rbracket ∈ post)) as [Hin|Hpost].
    + apply split_last in Hin as (x & post' & -> & Hpost').
      exists pre, (mid ++ rbracket :: x), post'.
      split; [|split; assumption].
      same_concat.
    + exists pre, mid, post. split; [reflexivity | split; assumption].
Qed.

Lemma slice_brackets pre mid post :
  lbracket ∉ pre -> rbracket ∉ post ->
  Gemini.slice (pre ++ lbracket :: mid ++ rbracket :: post) = lbracket :: mid ++ [rbracket].
Proof.
  intros Hpre Hpost. unfold Gemini.slice.
  rewrite indexOf_app by assumption.
  replace (pre ++ lbracket :: mid ++ rbracket :: post)
    with ((pre ++ lbracket :: mid) ++ rbracket :: post)
    by same_concat.
  rewrite lastIndexOf_app by assumption.
  rewrite length_app. cbn [length].
  destruct (Z.of_nat (length pre) =? -1) eqn:H1; [apply Z.eqb_eq in H1; lia|].
  destruct (Z.of_nat (length pre + S (length mid)) =? -1) eqn:H2;
    [apply Z.eqb_eq in H2; lia|].
  destruct (Z.of_nat (length pre) <? Z.of_nat (length pre + S (length mid))) eqn:H3;
    [|apply Z.ltb_ge in H3; lia].
  cbn [negb andb].
  replace ((pre ++ lbracket :: mid) ++ rbracket :: post)
    with (pre ++ (lbracket :: mid ++ [rbracket]) ++ post)
    by same_concat.
  replace (Z.of_nat (length pre + S (length mid)) + 1)
    with (Z.of_nat (length pre) + Z.of_nat (length (lbracket :: mid ++ [rbracket])))
    by (cbn [length]; rewrite length_app; simpl; lia).
  apply substring_mid.
Qed.

Lemma lastIndexOf_member (c : N) s : c ∈ s -> 0 <= lastIndexOf c s.
Proof.
  intros Hin. apply split_last in Hin as (x & y & -> & Hy).
  rewrite lastIndexOf_app by assumption. lia.
Qed.

(** Where a '[' comes before a ']', the regular expression matches. *)
Lemma match_array_some pre mid post :
  match_array (pre ++ lbracket :: mid ++ rbracket :: post) <> None.
Proof.
  induction pre as [|c pre IH].
  - cbn [app match_array match_array_here].
    change (lbracket =? lbracket)%N with true. cbn iota.
    pose proof (lastIndexOf_member rbracket (mid ++ rbracket :: post)) as Hj.
    destruct (lastIndexOf rbracket (mid ++ rbracket :: post) =? -1) eqn:Hneg;
      [|discriminate].
    apply Z.eqb_eq in Hneg. rewrite Hneg in Hj.
    exfalso. apply (Zle_not_lt _ _ (Hj ltac:(rewrite elem_of_app, elem_of_cons; auto))).
    lia.
  - cbn [app match_array].
    destruct (match_array_here (c :: pre ++ lbracket :: mid ++ rbracket :: post));
      [discriminate | exact IH].
Qed.

(** What is parsed either runs from a '[' to a ']', or holds no match of
    the regular expression. *)
Lemma slice_cases s :
  (exists mid, Gemini.slice s = lbracket :: mid ++ [rbracket]) \/
  match_array (Gemini.slice s) = None.
Proof.
  destruct (match_array s) as [m|] eqn:Hm.
  - left. apply match_array_inv in Hm as (pre & mid & post & ->).
    destruct (split_brackets pre mid post) as (pre' & mid' & post' & -> & Hpre & Hpost).
    exists mid'. apply slice_brackets; assumption.
  - right. unfold Gemini.slice.
    destruct (negb (indexOf lbracket s =? -1) && negb (lastIndexOf rbracket s =? -1)
              && (indexOf lbracket s <? lastIndexOf rbracket s)) eqn:Hc;
      [|assumption].
    exfalso.
    apply andb_true_iff in Hc as [Hc Hlt]. apply andb_true_iff in Hc as [Hi Hj].
    apply negb_true_iff, Z.eqb_neq in Hi, Hj. apply Z.ltb_lt in Hlt.
    destruct (decide (lbracket ∈ s)) as [Hin|Hnot];
      [|rewrite indexOf_none in Hi by assumption; lia].
    apply split_first in Hin as (pre & r & -> & Hpre).
    rewrite indexOf_app in Hlt by assumption.
    destruct (decide (rbracket ∈ r)) as [Hin|Hnot].
    + apply split_first in Hin as (mid & post & -> & _).
      apply (match_array_some pre mid post Hm).
    + destruct (decide (rbracket ∈ pre)) as [Hin|Hnot'].
      * apply split_last in Hin as (x & y & -> & Hy).
        rewrite <- app_assoc in Hlt. cbn [app] in Hlt.
        rewrite lastIndexOf_app in Hlt.
        -- rewrite length_app in Hlt. cbn [length] in Hlt. lia.
        -- rewrite not_elem_of_app, not_elem_of_cons. split; [assumption|].
           split; [discriminate | assumption].
      * rewrite lastIndexOf_none in Hj; [lia|].
        rewrite not_elem_of_app, not_elem_of_cons. split; [assumption|].
        split; [discriminate | assumption].
Qed.

Lemma clean_slice text :
  Gemini.clean text
  = Gemini.slice (remove_all (u "```") (remove_all (u "```json") (trim text))).
Proof. reflexivity. Qed.

(** The regular expression finds nothing but the text that did not
    parse. *)
Lemma match_array_clean text m :
  match_array (Gemini.clean text) = Some m -> m = Gemini.clean text.
Proof.
  rewrite clean_slice.
  destruct (slice_cases (remove_all (u "```") (remove_all (u "```json") (trim text))))
    as [[mid ->] | Hnone]; [|rewrite Hnone; discriminate].
  rewrite match_array_bracketed. congruence.
Qed.

(** So the second parse never saves a chunk. *)
Lemma parse_chunk_is_one_parse (E : engine) text start end_ v :
  Gemini.parse_chunk E (Gemini.clean text) start end_ = Normal v <->
  JSON_parse E (Gemini.clean text) = Normal v.
Proof.
  unfold Gemini.parse_chunk.
  destruct (JSON_parse E (Gemini.clean text)) as [chunk|parseError] eqn:Hparse;
    [reflexivity|].
  split; [|discriminate].
  destruct (match_array (Gemini.clean text)) as [m|] eqn:Hm; [|discriminate].
  apply match_array_clean in Hm. subst m. rewrite Hparse. discriminate.
Qed.

(** An array that holds no code fence, with no '[' in the text before it
    and no ']' in the text after it, is what [clean] isolates. *)
Lemma clean_isolates pre inner post :
  lbracket ∉ pre -> includes (u "```") inner = false -> rbracket ∉ post ->
  Gemini.clean (pre ++ (lbracket :: inner ++ [rbracket]) ++ post)
  = lbracket :: inner ++ [rbracket].
Proof.
  intros Hpre Hinner Hpost. rewrite clean_slice.
  replace (pre ++ (lbracket :: inner ++ [rbracket]) ++ post)
    with (pre ++ lbracket :: inner ++ rbracket :: post)
    by same_concat.
  rewrite trim_around by reflexivity.
  change (u "```json") with (u "```" ++ u "json").
  change (u "```") with (u "```" ++ []) at 1.
  destruct (remove_all_keeps_array (u "json") (trimStart pre) inner (trimEnd post))
    as (pre1 & post1 & -> & Hpre1 & Hpost1); try assumption.
  { by_computation. }
  { intros H. apply Hpre, trimStart_elem, H. }
  { intros H. apply Hpost, trimEnd_elem, H. }
  destruct (remove_all_keeps_array [] pre1 inner post1)
    as (pre2 & post2 & -> & Hpre2 & Hpost2); try assumption.
  { by_computation. }
  apply slice_brackets; assumption.
Qed.

End ExtractionFacts.

(** ** Validation and the schema *)

Section ValidationFacts.

Variable E : engine.
Variables start end_ : Z.

Lemma forEach_from_ok {A} (f : A -> nat -> completion unit) (l : list A) : forall i,
  Gemini.forEach_from f l i = Normal tt <->
  forall k x, l !! k = Some x -> f x (i + k)%nat = Normal tt.
Proof.
  induction l as [|a l IH]; intros i; cbn [Gemini.forEach_from].
  - split; [intros _ k x H; destruct k; discriminate | reflexivity].
  - destruct (f a i) as [[]|e] eqn:Ha; cbn [bind].
    + rewrite IH. split.
      * intros H [|k] x Hx.
        -- injection Hx as <-. rewrite Nat.add_0_r. exact Ha.
        -- replace (i + S k)%nat with (S i + k)%nat by lia. apply H, Hx.
      * intros H k x Hx. replace (S i + k)%nat with (i + S k)%nat by lia.
        apply H, Hx.
    + split; [discriminate|]. intros H.
      specialize (H O a eq_refl). rewrite Nat.add_0_r, Ha in H. discriminate.
Qed.

(** The check of a place passes exactly for the places of the schema; a
    place that is not [null] and fails it raises the error that names the
    place, the day and the window. *)
Lemma validate_place_schema (index : nat) (place : JSON) (placeIndex : nat) :
  (Gemini.validate_place E index start end_ place placeIndex = Normal tt <->
   Schema.place_conforms place = true) /\
  (place <> JNull -> Schema.place_conforms place = false ->
   Gemini.validate_place E index start end_ place placeIndex
   = Throw (Exn Error (u "Invalid place structure at place " ++ of_nat placeIndex
                       ++ u " in day " ++ of_nat index ++ u " of chunk "
                       ++ Gemini.days_range start end_))).
Proof.
  unfold Gemini.validate_place, Schema.place_conforms, Gemini.orelse.
  destruct place as [| | | | |members]; cbn [Js.get bind Js.truthy negb];
    try (split; [split; discriminate | reflexivity || congruence]).
  destruct (Js.truthy (Js.own_property (u "name") members)); cbn [negb andb];
    [|split; [split; discriminate | reflexivity]].
  destruct (Js.truthy (Js.own_property (u "description") members)); cbn [negb andb];
    [|split; [split; discriminate | reflexivity]].
  destruct (Js.own_property (u "location") members) as [[| b | m e | s | l | location]|];
    cbn [Js.get bind Js.truthy negb Js.is_number Js.typeof];
    try (split; [split; discriminate | reflexivity]).
  - destruct b; cbn [negb]; split; try (split; discriminate); reflexivity.
  - destruct (Js.number_is_zero m e); cbn [negb];
      split; try (split; discriminate); reflexivity.
  - destruct s; cbn [negb]; split; try (split; discriminate); reflexivity.
  - fold (Js.is_number (Js.own_property (u "lat") location)).
    fold (Js.is_number (Js.own_property (u "lng") location)).
    destruct (Js.is_number (Js.own_property (u "lat") location)); cbn [negb andb];
      [|split; [split; discriminate | reflexivity]].
    destruct (Js.is_number (Js.own_property (u "lng") location)); cbn [negb andb].
    + split; [split; reflexivity | intros _ H; discriminate].
    + split; [split; discriminate | reflexivity].
Qed.

Lemma validate_places_schema (index : nat) (places : list JSON) :
  Gemini.forEach_from (Gemini.validate_place E index start end_) places O = Normal tt <->
  forallb Schema.place_conforms places = true.
Proof.
  rewrite forEach_from_ok, forallb_forall. split.
  - intros H x Hx. apply list_elem_of_In, list_elem_of_lookup in Hx as [k Hk].
    apply (validate_place_schema index x (0 + k)), (H k x Hk).
  - intros H k x Hk. apply validate_place_schema, H.
    apply list_elem_of_In, list_elem_of_lookup. eauto.
Qed.

(** The check of a day passes exactly for the days of the schema. *)
Lemma validate_day_schema (day : JSON) (index : nat) :
  Gemini.validate_day E start end_ day index = Normal tt <->
  Schema.day_conforms day = true.
Proof.
  unfold Gemini.validate_day, Schema.day_conforms, Gemini.orelse.
  destruct day as [| | | | |members]; cbn [Js.get bind Js.truthy negb];
    try (split; discriminate).
  destruct (Js.truthy (Js.own_property (u "title") members)); cbn [negb andb];
    [|split; discriminate].
  destruct (Js.own_property (u "itinerary") members) as [[| b | m e | s | places | ms]|];
    cbn [Js.truthy negb Js.isArray Gemini.forEach]; try (split; discriminate).
  - destruct b; cbn [negb]; split; discriminate.
  - destruct (Js.number_is_zero m e); cbn [negb]; split; discriminate.
  - destruct s; cbn [negb]; split; discriminate.
  - apply validate_places_schema.
Qed.

(** A chunk passes the validation exactly when it is of the schema; its
    days are then handed on as they are. *)
Lemma validate_chunk_schema (chunk : JSON) (days : list JSON) :
  Gemini.validate_chunk E chunk start end_ = Normal days <->
  chunk = JArr days /\ Schema.chunk_conforms chunk = true.
Proof.
  unfold Gemini.validate_chunk, Schema.chunk_conforms.
  destruct chunk as [| | | | elements |]; cbn [Js.read_length bind];
    try (split; [discriminate | intros [? ?]; discriminate]).
  destruct (Gemini.forEach_from (Gemini.validate_day E start end_) elements O)
    as [[]|e] eqn:Hall; cbn [bind].
  - assert (Hschema : forallb Schema.day_conforms elements = true).
    { apply forallb_forall. intros x Hx.
      apply list_elem_of_In, list_elem_of_lookup in Hx as [k Hk].
      apply (validate_day_schema x (0 + k)).
      apply (proj1 (forEach_from_ok _ elements O) Hall k x Hk). }
    split; [intros H; injection H as <-; auto | intros [H _]; congruence].
  - split; [discriminate|]. intros [_ Hschema]. exfalso.
    assert (Hok : Gemini.forEach_from (Gemini.validate_day E start end_) elements O
                  = Normal tt); [|congruence].
    apply forEach_from_ok. intros k x Hk. apply validate_day_schema.
    apply (proj1 (forallb_forall _ _) Hschema).
    apply list_elem_of_In, list_elem_of_lookup. eauto.
Qed.

Lemma forEach_from_throws {A} (f : A -> nat -> completion unit) (l : list A) e :
  forall i,
  Gemini.forEach_from f l i = Throw e ->
  exists k x, l !! k = Some x /\ f x (i + k)%nat = Throw e.
Proof.
  induction l as [|a l IH]; intros i; cbn [Gemini.forEach_from]; [discriminate|].
  destruct (f a i) as [[]|e'] eqn:Ha; cbn [bind].
  - intros H. destruct (IH _ H) as (k & x & Hk & Hx).
    exists (S k), x. split; [exact Hk|].
    replace (i + S k)%nat with (S i + k)%nat by lia. exact Hx.
  - intros H. injection H as <-. exists O, a. split; [reflexivity|].
    rewrite Nat.add_0_r. exact Ha.
Qed.

(** A day that is not [null], has no [null] place and is not of the schema
    raises an error that names its index and the window. *)
Lemma validate_day_names_index (day : JSON) (index : nat) :
  day <> JNull -> JNull ∉ Schema.places_of day ->
  Schema.day_conforms day = false ->
  Gemini.validate_day E start end_ day index
  = Throw (Exn Error (u "Invalid day structure at index " ++ of_nat index
                      ++ u " in chunk " ++ Gemini.days_range start end_)) \/
  exists placeIndex,
    (placeIndex < length (Schema.places_of day))%nat /\
    Gemini.validate_day E start end_ day index
    = Throw (Exn Error (u "Invalid place structure at place " ++ of_nat placeIndex
                        ++ u " in day " ++ of_nat index ++ u " of chunk "
                        ++ Gemini.days_range start end_)).
Proof.
  intros Hday Hplaces Hbad.
  unfold Gemini.validate_day, Schema.day_conforms, Schema.places_of, Gemini.orelse in *.
  destruct day as [| | | | |members]; cbn [Js.get bind Js.truthy negb];
    try (left; reflexivity); [congruence|].
  destruct (Js.truthy (Js.own_property (u "title") members)); cbn [negb andb] in *;
    [|left; reflexivity].
  destruct (Js.own_property (u "itinerary") members) as [[| b | m e | s | places | ms]|];
    cbn [Js.truthy negb Js.isArray Gemini.forEach]; try (left; reflexivity).
  - destruct b; left; reflexivity.
  - destruct (Js.number_is_zero m e); left; reflexivity.
  - destruct s; left; reflexivity.
  - right. cbn [bind].
    destruct (Gemini.forEach_from (Gemini.validate_place E index start end_) places O)
      as [[]|e] eqn:Hall.
    { apply validate_places_schema in Hall. congruence. }
    apply forEach_from_throws in Hall as (k & x & Hk & Hx).
    exists k. split; [apply (lookup_lt_Some _ _ _ Hk)|].
    rewrite (proj2 (validate_place_schema index x (0 + k))) in Hx.
    + injection Hx as <-. reflexivity.
    + intros ->. apply Hplaces, list_elem_of_lookup. eauto.
    + destruct (Schema.place_conforms x) eqn:Hc; [|reflexivity].
      apply (validate_place_schema index x (0 + k)) in Hc. congruence.
Qed.

(** An array without a [null] day or place that is not of the schema
    raises an error that names the window and the index of a day of the
    array, or of a place of that day. *)
Lemma validate_chunk_names_index (days : list JSON) :
  JNull ∉ days -> (forall day, day ∈ days -> JNull ∉ Schema.places_of day) ->
  Schema.chunk_conforms (JArr days) = false ->
  exists index day,
    days !! index = Some day /\
    (Gemini.validate_chunk E (JArr days) start end_
     = Throw (Exn Error (u "Invalid day structure at index " ++ of_nat index
                         ++ u " in chunk " ++ Gemini.days_range start end_)) \/
     exists placeIndex,
       (placeIndex < length (Schema.places_of day))%nat /\
       Gemini.validate_chunk E (JArr days) start end_
       = Throw (Exn Error (u "Invalid place structure at place " ++ of_nat placeIndex
                           ++ u " in day " ++ of_nat index ++ u " of chunk "
                           ++ Gemini.days_range start end_))).
Proof.
  intros Hdays Hplaces Hbad.
  unfold Gemini.validate_chunk. cbn [Js.read_length bind].
  destruct (Gemini.forEach_from (Gemini.validate_day E start end_) days O)
    as [[]|e] eqn:Hall.
  { exfalso. assert (Hok : Schema.chunk_conforms (JArr days) = true); [|congruence].
    apply (validate_chunk_schema (JArr days) days).
    unfold Gemini.validate_chunk. cbn [Js.read_length bind]. rewrite Hall. reflexivity. }
  apply forEach_from_throws in Hall as (k & day & Hk & Hday). cbn [Nat.add] in Hday.
  assert (Hin : day ∈ days) by (apply list_elem_of_lookup; eauto).
  exists k, day. split; [assumption|]. cbn [bind].
  destruct (validate_day_names_index day k) as [H|(placeIndex & Hlt & H)].
  - intros ->. contradiction.
  - apply Hplaces, Hin.
  - destruct (Schema.day_conforms day) eqn:Hc; [|reflexivity].
    apply (validate_day_schema day k) in Hc. congruence.
  - left. congruence.
  - right. exists placeIndex. split; [assumption | congruence].
Qed.

End ValidationFacts.

(** ** The image search and the image cache *)

Section ResolverFacts.

Variable E : engine.
Variable UNSPLASH_ACCESS_KEY : option jsstring.
Variable fetch : nat -> jsstring -> completion Unsplash.response.

Let getPlaceImage := Unsplash.getPlaceImage E UNSPLASH_ACCESS_KEY fetch.

(** [getPlaceImage] catches whatever its search throws. *)
Lemma getPlaceImage_returns (query : jsstring) (requested : list jsstring) :
  exists v requested', getPlaceImage query requested = (Normal v, requested').
Proof.
  subst getPlaceImage. unfold Unsplash.getPlaceImage.
  destruct (Unsplash.search E UNSPLASH_ACCESS_KEY fetch query requested) as [[v|e] r];
    eauto.
Qed.

(** What it returns is the constant, or the URL of the first result of a
    search that went well. *)
Lemma getPlaceImage_cases (query : jsstring) (requested : list jsstring) v requested' :
  getPlaceImage query requested = (Normal v, requested') ->
  v = Some (JStr Unsplash.NO_IMAGE) \/
  exists encoded res data first rest,
    Uri.encode query = Some encoded /\
    fetch (length requested) (Unsplash.search_url UNSPLASH_ACCESS_KEY encoded) = Normal res /\
    Unsplash.ok res = true /\ Unsplash.json res = Normal data /\
    Unsplash.results data = first :: rest /\ v = Unsplash.urls_regular first.
Proof.
  subst getPlaceImage.
  unfold Unsplash.getPlaceImage, Unsplash.search, Uri.encodeURIComponent.
  destruct (Uri.encode query) as [encoded|] eqn:Henc;
    [|intros H; injection H as <- _; left; reflexivity].
  destruct (fetch (length requested) (Unsplash.search_url UNSPLASH_ACCESS_KEY encoded))
    as [res|e] eqn:Hfetch; cbn [bind];
    [|intros H; injection H as <- _; left; reflexivity].
  destruct (Unsplash.ok res) eqn:Hok; cbn [negb];
    [|intros H; injection H as <- _; left; reflexivity].
  destruct (Unsplash.json res) as [data|e] eqn:Hjson; cbn [bind];
    [|intros H; injection H as <- _; left; reflexivity].
  destruct (Unsplash.results data) as [|first rest] eqn:Hres;
    intros H; injection H as <- _; [left; reflexivity|].
  right. exists encoded, res, data, first, rest. repeat split; assumption.
Qed.

(** A search that comes to nothing ends in the constant. *)
Lemma getPlaceImage_nothing (query : jsstring) (requested : list jsstring) :
  (forall url, Unsplash.finds_nothing (fetch (length requested) url)) ->
  fst (getPlaceImage query requested) = Normal (Some (JStr Unsplash.NO_IMAGE)).
Proof.
  intros Hnothing. subst getPlaceImage.
  unfold Unsplash.getPlaceImage, Unsplash.search, Uri.encodeURIComponent.
  destruct (Uri.encode query) as [encoded|]; [|reflexivity].
  specialize (Hnothing (Unsplash.search_url UNSPLASH_ACCESS_KEY encoded)).
  destruct (fetch (length requested) (Unsplash.search_url UNSPLASH_ACCESS_KEY encoded))
    as [res|e]; cbn [bind]; [|reflexivity].
  destruct Hnothing as [Hok|[[e Hjson]|(data & Hjson & Hres)]].
  - rewrite Hok. reflexivity.
  - destruct (Unsplash.ok res); [|reflexivity]. cbn [negb]. rewrite Hjson. reflexivity.
  - destruct (Unsplash.ok res); [|reflexivity]. cbn [negb]. rewrite Hjson. cbn [bind].
    rewrite Hres. reflexivity.
Qed.

(** When [getPlaceImage] gives no usable URL, the query was encoded once
    already, and the URL made from the query exists. *)
Lemma fallback_url_exists (query : jsstring) (requested : list jsstring) v requested' :
  getPlaceImage query requested = (Normal v, requested') ->
  Js.truthy v = false ->
  exists encoded,
    Uri.encode (Sidebar.query_or_travel query) = Some encoded /\
    Sidebar.fallback_url E query
    = Normal (u "https://source.unsplash.com/600x400/?" ++ encoded).
Proof.
  intros Hget Hfalsy.
  destruct (getPlaceImage_cases query requested v requested' Hget)
    as [->|(encoded & _ & _ & _ & _ & Henc & _)]; [discriminate|].
  unfold Sidebar.fallback_url, Uri.encodeURIComponent.
  destruct query as [|c query]; cbn [Sidebar.query_or_travel].
  - eexists. split; reflexivity.
  - rewrite Henc. eexists. split; reflexivity.
Qed.

End ResolverFacts.

(** What [getOrFetch] does when the key is not cached, from what
    [getPlaceImage] gave. *)
Lemma getOrFetch_miss (E : engine) (K : option jsstring)
    (fetch : nat -> jsstring -> completion Unsplash.response)
    (key query : jsstring) (st : Sidebar.store) v requested' :
  Js.truthy (Sidebar.get key st) = false ->
  Unsplash.getPlaceImage E K fetch query (Sidebar.requested st) = (Normal v, requested') ->
  (Js.truthy v = true ->
   exists url, v = Some url /\
     Sidebar.getOrFetch E K fetch key query st
     = (Normal v, Sidebar.Store (<[key := url]> (Sidebar.cache st)) requested')) /\
  (Js.truthy v = false ->
   exists encoded,
     Uri.encode (Sidebar.query_or_travel query) = Some encoded /\
     let fallback := u "https://source.unsplash.com/600x400/?" ++ encoded in
     Sidebar.getOrFetch E K fetch key query st
     = (Normal (Some (JStr fallback)),
        Sidebar.Store (<[key := JStr fallback]> (Sidebar.cache st)) requested')).
Proof.
  intros Hmiss Hget. unfold Sidebar.getOrFetch. rewrite Hmiss, Hget. split.
  - intros Htruthy. destruct v as [url|]; [|discriminate].
    exists url. split; [reflexivity|]. rewrite Htruthy. reflexivity.
  - intros Hfalsy.
    destruct (fallback_url_exists E K fetch query _ v requested' Hget Hfalsy)
      as (encoded & Henc & Hurl).
    exists encoded. split; [assumption|]. cbn zeta.
    unfold Sidebar.provide_fallback. rewrite Hurl.
    destruct v as [url|]; [rewrite Hfalsy|]; reflexivity.
Qed.

(** Whatever [getOrFetch] returns, it is a value that counts as true, and
    afterwards the cache holds it under the key. *)
Lemma getOrFetch_caches (E : engine) (K : option jsstring)
    (fetch : nat -> jsstring -> completion Unsplash.response)
    (key query : jsstring) (st : Sidebar.store) :
  exists url st',
    Sidebar.getOrFetch E K fetch key query st = (Normal (Some url), st') /\
    Sidebar.get key st' = Some url /\ Js.truthy (Some url) = true.
Proof.
  destruct (Js.truthy (Sidebar.get key st)) eqn:Hcur.
  - unfold Sidebar.getOrFetch. rewrite Hcur.
    destruct (Sidebar.get key st) as [url|] eqn:Hget; [|discriminate].
    exists url, st. repeat split; assumption.
  - destruct (getPlaceImage_returns E K fetch query (Sidebar.requested st))
      as (v & requested' & Hget).
    destruct (getOrFetch_miss E K fetch key query st v requested' Hcur Hget)
      as [Htrue Hfalse].
    destruct (Js.truthy v) eqn:Hv.
    + destruct (Htrue eq_refl) as (url & -> & ->).
      eexists _, _. split; [reflexivity|]. split; [|assumption].
      unfold Sidebar.get. cbn [Sidebar.cache]. apply lookup_insert_eq.
    + destruct (Hfalse eq_refl) as (encoded & _ & ->).
      eexists _, _. split; [reflexivity|]. split; [|reflexivity].
      unfold Sidebar.get. cbn [Sidebar.cache]. apply lookup_insert_eq.
Qed.


(** ** The claims about the generator *)

(** C2. When the API key is absent (the variable is not set, or is empty),
    [generateItinerary] throws an [Error] whose message says so, whatever
    the destination, the budget and the number of days; it sends no request
    and returns no plan. *)
Theorem missing_key_throws (E : engine) (model : nat -> jsstring -> completion jsstring)
    (city budget : jsstring) (days : Z) :
  Gemini.generateItinerary E None model city budget days
  = Some (Gemini.Run (Throw (Exn Error Gemini.missing_key_message)) [] []) /\
  Gemini.generateItinerary E (Some []) model city budget days
  = Some (Gemini.Run (Throw (Exn Error Gemini.missing_key_message)) [] []) /\
  Gemini.missing_key_message
  = u "Gemini API key is missing. Please check your .env file.".
Proof. repeat split. Qed.

(** C1, as stated, fails: without an API key [generateItinerary] throws to
    its caller. *)
Lemma generateItinerary_can_throw :
  exists e,
    Gemini.outcome <$> Gemini.generateItinerary Samples.v8 None Samples.steady
                         (u "Kyoto") (u "900") 5
    = Some (Throw e).
Proof. eexists. reflexivity. Qed.

(** C1, amended. With the API key configured, [generateItinerary] returns
    for every destination, budget and number of days, and never throws.
    When a window fails (its request, its JSON or its validation raises an
    error [e], the windows before it having given their chunks) what it
    returns is the fallback plan: one day with one stop, whose description
    is not empty and ends with the message of [e], and which passes the
    generator's own validation of chunks. *)
Theorem generateItinerary_never_throws_with_key
    (E : engine) (apiKey : option jsstring)
    (model : nat -> jsstring -> completion jsstring)
    (city budget : jsstring) (days : Z) :
  Js.truthy (JStr <$> apiKey) = true ->
  exists plans sent warned,
    Gemini.generateItinerary E apiKey model city budget days
    = Some (Gemini.Run (Normal plans) sent warned) /\
    forall k e,
      Gemini.window_start k <= days ->
      (forall j, (j < k)%nat -> exists c, Gemini.window E model city budget days j = Normal c) ->
      Gemini.window E model city budget days k = Throw e ->
      plans = Gemini.fallback (message e) /\
      exists day stop description,
        plans = [day] /\
        Js.get E (u "day") (Some day) (u "itinerary") = Normal (Some (JArr [stop])) /\
        Js.get E (u "place") (Some stop) (u "description") = Normal (Some (JStr description)) /\
        description = u "Default location because AI parsing failed. Error: " ++ message e /\
        description <> [] /\
        forall start end_,
          Gemini.validate_chunk E (JArr plans) start end_ = Normal plans.
Proof.
  intros Hkey.
  destruct (first_failure E model city budget days (Gemini.window_count days))
    as [[cs Hcs]|(k & e & Hk & Hbefore & Hfail)].
  - rewrite (generateItinerary_all_windows E apiKey model city budget days Hkey cs Hcs).
    eexists _, _, _. split; [reflexivity|].
    intros k e Hin _ Hfail. apply window_in_range in Hin.
    rewrite Hcs in Hfail by assumption. discriminate.
  - apply window_in_range in Hk.
    rewrite (generateItinerary_fails_at E apiKey model city budget days Hkey k e
               Hk Hbefore Hfail).
    eexists _, _, _. split; [reflexivity|].
    intros k' e' Hin' Hbefore' Hfail'.
    assert (k' = k) as ->.
    { destruct (Nat.lt_trichotomy k' k) as [Hlt|[Heq|Hgt]]; [|assumption|].
      - destruct (Hbefore k' Hlt) as [c Hc]. rewrite Hc in Hfail'. discriminate.
      - destruct (Hbefore' k Hgt) as [c Hc]. rewrite Hc in Hfail. discriminate. }
    rewrite Hfail in Hfail'. injection Hfail' as <-.
    split; [reflexivity|].
    destruct (fallback_shape E (message e))
      as (day & stop & Hday & _ & Hit & Hdesc & Hne & Hvalid).
    exists day, stop, (u "Default location because AI parsing failed. Error: " ++ message e).
    rewrite Hday in *. repeat split; assumption.
Qed.

(** With a key and a model that answers in prose, what is returned is the
    fallback plan for the error of the first window. *)
Lemma generateItinerary_never_throws_with_key_witness :
  exists plans sent warned,
    Gemini.generateItinerary Samples.v8 Samples.key Samples.chatty (u "Kyoto") (u "900") 5
    = Some (Gemini.Run (Normal plans) sent warned) /\
    plans = Gemini.fallback (u "No valid JSON array found in response for days 1-5").
Proof.
  destruct (generateItinerary_never_throws_with_key Samples.v8 Samples.key Samples.chatty
              (u "Kyoto") (u "900") 5 eq_refl) as (plans & sent & warned & H & Hfail).
  exists plans, sent, warned. split; [exact H|].
  apply (Hfail O (Exn Error (u "No valid JSON array found in response for days 1-5"))).
  - vm_compute. discriminate.
  - intros j Hj. lia.
  - vm_compute. reflexivity.
Defined.

(** C3. Failure is all or nothing: when a window raises an error [e] (in
    its request, its JSON or its validation) after [k] windows that gave
    their chunks [cs 0 .. cs (k-1)], [generateItinerary] returns exactly the
    fallback plan for [e], one single day, whatever those chunks were: none
    of their days is handed on. *)
Theorem failure_is_all_or_nothing
    (E : engine) (apiKey : option jsstring)
    (model : nat -> jsstring -> completion jsstring)
    (city budget : jsstring) (days : Z)
    (k : nat) (cs : nat -> list JSON) (e : exn) :
  Js.truthy (JStr <$> apiKey) = true ->
  Gemini.window_start k <= days ->
  (forall j, (j < k)%nat -> Gemini.window E model city budget days j = Normal (cs j)) ->
  Gemini.window E model city budget days k = Throw e ->
  exists sent,
    Gemini.generateItinerary E apiKey model city budget days
    = Some (Gemini.Run (Normal (Gemini.fallback (message e))) sent []) /\
    length (Gemini.fallback (message e)) = 1%nat.
Proof.
  intros Hkey Hin Hbefore Hfail.
  eexists. split; [|reflexivity].
  apply (generateItinerary_fails_at E apiKey model city budget days Hkey k e);
    try assumption.
  intros j Hj. exists (cs j). apply Hbefore. assumption.
Qed.

(** Ten days, a first window that gives its chunk and a second one that
    fails: the fallback plan for the error of the second window. *)
Lemma failure_is_all_or_nothing_witness :
  exists sent e,
    Gemini.window Samples.v8 Samples.tiring (u "Kyoto") (u "900") 10 0
    = Normal Samples.one_day_plan /\
    Gemini.generateItinerary Samples.v8 Samples.key Samples.tiring (u "Kyoto") (u "900") 10
    = Some (Gemini.Run (Normal (Gemini.fallback (message e))) sent []).
Proof.
  destruct (failure_is_all_or_nothing Samples.v8 Samples.key Samples.tiring
              (u "Kyoto") (u "900") 10 1 (fun _ => Samples.one_day_plan)
              (Exn Error (u "No valid JSON array found in response for days 8-10")))
    as (sent & H & _).
  - reflexivity.
  - vm_compute. discriminate.
  - intros j Hj. destruct j as [|j]; [vm_compute; reflexivity | lia].
  - vm_compute. reflexivity.
  - exists sent, (Exn Error (u "No valid JSON array found in response for days 8-10")).
    split; [vm_compute; reflexivity | exact H].
Defined.

(** C9. When every window parses and validates, [generateItinerary]
    returns the chunks of all the windows put together, in order and
    unchanged, whether or not their number of days is the number asked
    for: a mismatch adds one line to [console.warn] and nothing else. *)
Theorem mismatch_is_only_warned
    (E : engine) (apiKey : option jsstring)
    (model : nat -> jsstring -> completion jsstring)
    (city budget : jsstring) (days : Z) (cs : nat -> list JSON) :
  Js.truthy (JStr <$> apiKey) = true ->
  (forall k, (k < Gemini.window_count days)%nat ->
             Gemini.window E model city budget days k = Normal (cs k)) ->
  let fullItinerary := concat (map cs (seq 0 (Gemini.window_count days))) in
  exists r,
    Gemini.generateItinerary E apiKey model city budget days = Some r /\
    Gemini.outcome r = Normal fullItinerary /\
    Gemini.warnings r =
      (if decide (Z.of_nat (length fullItinerary) = days) then []
       else [Gemini.mismatch_warning days (length fullItinerary)]).
Proof.
  intros Hkey Hall full. eexists. split; [|split].
  - apply (generateItinerary_all_windows E apiKey model city budget days Hkey cs Hall).
  - reflexivity.
  - reflexivity.
Qed.

(** Ten days asked for and one day in each of the two windows: the two
    days are returned, and the warning is logged. *)
Lemma mismatch_is_only_warned_witness :
  exists r,
    Gemini.generateItinerary Samples.v8 Samples.key Samples.steady (u "Kyoto") (u "900") 10
    = Some r /\
    Gemini.outcome r = Normal (Samples.one_day_plan ++ Samples.one_day_plan) /\
    Gemini.warnings r = [Gemini.mismatch_warning 10 2].
Proof.
  destruct (mismatch_is_only_warned Samples.v8 Samples.key Samples.steady
              (u "Kyoto") (u "900") 10 (fun _ => Samples.one_day_plan))
    as (r & H & Hout & Hwarn).
  - reflexivity.
  - intros k Hk. destruct k as [|[|k]]; [vm_compute; reflexivity ..|].
    vm_compute in Hk. lia.
  - exists r. split; [exact H|]. split; [exact Hout | exact Hwarn].
Defined.
(** C6, as stated, fails: for ten days and a model whose first answer is no
    JSON there is one request, not two. *)
Lemma ten_days_one_request :
  exists r,
    Gemini.generateItinerary Samples.v8 Samples.key Samples.chatty (u "Kyoto") (u "900") 10
    = Some r /\
    Gemini.prompts r = [Gemini.prompt (u "Kyoto") (u "900") 1 7].
Proof. eexists. split; vm_compute; reflexivity. Qed.

(** C6, amended. With the API key configured, [generateItinerary] cuts the
    days asked for into windows of 7 days (the last one may be shorter) and
    sends one request for each window, in order, until a window fails or
    the windows are done; the prompt of a window names its first and last
    day. For 10 days, when the first window gives its chunk, there are
    exactly two requests, with the prompts for the days 1 to 7 and for the
    days 8 to 10. *)
Theorem one_request_per_window (E : engine) (apiKey : option jsstring)
    (model : nat -> jsstring -> completion jsstring)
    (city budget : jsstring) (days : Z) :
  Js.truthy (JStr <$> apiKey) = true ->
  exists r n,
    Gemini.generateItinerary E apiKey model city budget days = Some r /\
    (* one request for each window, in order, up to the first failure: the
       windows before the last request gave their chunks, and the last
       request is that of the last window or of a window that failed *)
    Gemini.prompts r = map (Gemini.window_prompt city budget days) (seq 0 n) /\
    (n <= Gemini.window_count days)%nat /\
    (forall j, (S j < n)%nat ->
       exists c, Gemini.window E model city budget days j = Normal c) /\
    (n = Gemini.window_count days \/
     exists k e, n = S k /\ Gemini.window E model city budget days k = Throw e) /\
    (* the windows tile the days 1 .. days in sevens *)
    Gemini.window_start 0 = 1 /\
    (forall k, (S k < Gemini.window_count days)%nat ->
       Gemini.window_end days k = Gemini.window_start k + 7 - 1 /\
       Gemini.window_start (S k) = Gemini.window_end days k + 1) /\
    (forall k, S k = Gemini.window_count days -> Gemini.window_end days k = days) /\
    (* each prompt names the days of its window *)
    (forall k, exists before after,
       Gemini.window_prompt city budget days k
       = before ++ u "Create plans ONLY for days " ++ of_Z (Gemini.window_start k)
         ++ u " to " ++ of_Z (Gemini.window_end days k) ++ u "." ++ after) /\
    (* ten days *)
    (days = 10 ->
     (exists c, Gemini.window E model city budget days 0 = Normal c) ->
     Gemini.prompts r = [Gemini.prompt city budget 1 7; Gemini.prompt city budget 8 10]).
Proof.
  intros Hkey.
  destruct (requests_follow_windows E apiKey model city budget days Hkey)
    as (r & n & Hrun & Hsent & Hle & Hbefore & Hlast).
  exists r, n. split; [assumption|]. split; [assumption|]. split; [assumption|].
  split; [assumption|]. split; [assumption|].
  split; [reflexivity|].
  split; [intros k; apply (windows_tile days k)|].
  split; [intros k; apply (windows_tile days k)|].
  split; [intros k; apply prompt_names_days|].
  intros -> [c Hc]. rewrite Hsent.
  assert (n = 2%nat) as ->; [|reflexivity].
  change (Gemini.window_count 10) with 2%nat in *.
  destruct Hlast as [->|(k & e & -> & Hfail)]; [reflexivity|].
  destruct k as [|[|k]]; [rewrite Hc in Hfail; discriminate | reflexivity | lia].
Qed.

(** Ten days and a model that answers each request with a chunk: the two
    prompts. *)
Lemma one_request_per_window_witness :
  exists r,
    Gemini.generateItinerary Samples.v8 Samples.key Samples.steady (u "Kyoto") (u "900") 10
    = Some r /\
    Gemini.prompts r
    = [Gemini.prompt (u "Kyoto") (u "900") 1 7; Gemini.prompt (u "Kyoto") (u "900") 8 10].
Proof.
  destruct (one_request_per_window Samples.v8 Samples.key Samples.steady
              (u "Kyoto") (u "900") 10 eq_refl)
    as (r & n & Hrun & _ & _ & _ & _ & _ & _ & _ & _ & Hten).
  exists r. split; [exact Hrun|].
  apply Hten; [reflexivity|].
  exists Samples.one_day_plan. vm_compute. reflexivity.
Defined.

(** C5, as stated, fails: an empty array in code fences, between prose
    that has brackets of its own, is not isolated; what is cut out is the
    text from the '[' of the prose to the ']' of the array, and both parses
    fail on it. And an array that holds a code-fence marker in one of its
    strings is parsed without it. *)
Lemma fenced_array_not_isolated :
  Samples.fenced_bracket_prose
  = u "Plan [draft]: " ++ u "```json
" ++ u "[]" ++ u "
```" ++ u " done" /\
  JSON_parse Samples.v8 (u "[]") = Normal (JArr []) /\
  Gemini.clean Samples.fenced_bracket_prose = u "[draft]: []" /\
  (exists e, Gemini.read_chunk Samples.v8 Samples.fenced_bracket_prose 1 7 = Throw e) /\
  JSON_parse Samples.v8 (q "['a```b']") = Normal (JArr [JStr (u "a```b")]) /\
  Gemini.parse_chunk Samples.v8 (Gemini.clean (u "```json
" ++ q "['a```b']" ++ u "
```")) 1 7 = Normal (JArr [JStr (u "ab")]).
Proof.
  split; [reflexivity|]. split; [reflexivity|]. split; [reflexivity|].
  split; [eexists; vm_compute; reflexivity|].
  split; vm_compute; reflexivity.
Qed.

(** C5, amended. For every response, what is parsed is the trimmed text
    without its code-fence markers, cut down to what lies from its first
    '[' to its last ']' when it has both in this order. When that parse
    fails, the regular expression is tried once and a second parse is made
    of its match; the match is the very text that did not parse, so a
    chunk comes out exactly when the first parse gives it, and otherwise
    the error names the window. An array text that holds no code-fence
    marker is isolated and parsed whenever no '[' comes before it and no
    ']' after it, as when it stands in code fences between prose without
    brackets. *)
Theorem extraction_steps (E : engine) (text : jsstring) (start end_ : Z) :
  Gemini.clean text
  = Gemini.slice (remove_all (u "```") (remove_all (u "```json") (trim text))) /\
  (forall m, match_array (Gemini.clean text) = Some m -> m = Gemini.clean text) /\
  (forall v, Gemini.parse_chunk E (Gemini.clean text) start end_ = Normal v <->
             JSON_parse E (Gemini.clean text) = Normal v) /\
  (forall parseError, JSON_parse E (Gemini.clean text) = Throw parseError ->
     Gemini.parse_chunk E (Gemini.clean text) start end_
     = Throw (Exn Error
         (match match_array (Gemini.clean text) with
          | Some _ => u "JSON parsing failed for days " ++ Gemini.days_range start end_
                      ++ u ": " ++ message parseError
          | None => u "No valid JSON array found in response for days "
                    ++ Gemini.days_range start end_
          end))) /\
  (forall pre inner post v,
     text = pre ++ (lbracket :: inner ++ [rbracket]) ++ post ->
     lbracket ∉ pre -> includes (u "```") inner = false -> rbracket ∉ post ->
     JSON_parse E (lbracket :: inner ++ [rbracket]) = Normal v ->
     Gemini.clean text = lbracket :: inner ++ [rbracket] /\
     Gemini.parse_chunk E (Gemini.clean text) start end_ = Normal v).
Proof.
  split; [reflexivity|].
  split; [intros m; apply match_array_clean|].
  split; [intros v; apply parse_chunk_is_one_parse|].
  split.
  - intros parseError Hparse. unfold Gemini.parse_chunk. rewrite Hparse.
    destruct (match_array (Gemini.clean text)) as [m|] eqn:Hm; [|reflexivity].
    apply match_array_clean in Hm. subst m. rewrite Hparse. reflexivity.
  - intros pre inner post v -> Hpre Hinner Hpost Hparse.
    rewrite (clean_isolates pre inner post Hpre Hinner Hpost).
    split; [reflexivity|].
    unfold Gemini.parse_chunk. rewrite Hparse. reflexivity.
Qed.

(** A chunk in code fences between two lines of prose is isolated and
    parsed. *)
Lemma extraction_steps_witness :
  Gemini.clean Samples.fenced = Samples.one_day /\
  Gemini.parse_chunk Samples.v8 (Gemini.clean Samples.fenced) 1 7
  = Normal (JArr Samples.one_day_plan).
Proof.
  destruct (extraction_steps Samples.v8 Samples.fenced 1 7) as (_ & _ & _ & _ & H).
  apply (H Samples.fence_and_prose_before Samples.day_object
           Samples.fence_and_prose_after (JArr Samples.one_day_plan)).
  - reflexivity.
  - by_computation.
  - by_computation.
  - by_computation.
  - vm_compute. reflexivity.
Defined.

(** C4 at a chunk with a [null] day: the error is the host's [TypeError]
    for reading [title] of [null]. Its message is the same for a [null] at
    index 0 and at index 1, and for every window: it names neither. It is
    this message that the fallback plan then shows. *)
Theorem null_day_raises_host_error (E : engine) (start end_ start' end_' : Z) :
  Gemini.read_chunk E (u "[null]") start end_
  = Throw (Exn TypeError (null_read_message E (u "day") (u "title"))) /\
  Gemini.read_chunk E Samples.day_then_null start' end_'
  = Throw (Exn TypeError (null_read_message E (u "day") (u "title"))) /\
  Gemini.generateItinerary Samples.v8 Samples.key Samples.null_day (u "Kyoto") (u "900") 10
  = Some (Gemini.Run
            (Normal (Gemini.fallback (u "Cannot read properties of null (reading 'title')")))
            [Gemini.prompt (u "Kyoto") (u "900") 1 7] []).
Proof. repeat split; vm_compute; reflexivity. Qed.
(** ** The claims about the image resolver *)

(** C7. After a call of [getOrFetch] for a key has returned a URL, a second
    call for the same key (with any query, and whatever the backend would
    answer) returns the same URL and leaves the store as it is: nothing is
    fetched. The first call always returns. *)
Theorem second_call_is_cached (E : engine) (K : option jsstring)
    (fetch fetch' : nat -> jsstring -> completion Unsplash.response)
    (key query query' : jsstring) (st : Sidebar.store) :
  exists url st1,
    Sidebar.getOrFetch E K fetch key query st = (Normal (Some url), st1) /\
    Sidebar.getOrFetch E K fetch' key query' st1 = (Normal (Some url), st1) /\
    Sidebar.requested (snd (Sidebar.getOrFetch E K fetch' key query' st1))
    = Sidebar.requested st1.
Proof.
  destruct (getOrFetch_caches E K fetch key query st) as (url & st1 & Hcall & Hget & Htrue).
  exists url, st1. split; [assumption|].
  assert (H2 : Sidebar.getOrFetch E K fetch' key query' st1 = (Normal (Some url), st1)).
  { unfold Sidebar.getOrFetch. rewrite Hget, Htrue. reflexivity. }
  split; [assumption|]. rewrite H2. reflexivity.
Qed.




(** C10, as stated, fails: a search whose first result has an empty URL
    makes [getPlaceImage] return the empty string, and [getOrFetch] then
    takes its fallback branch and returns the URL made from the query. *)
Lemma empty_url_reaches_fallback :
  fst (Unsplash.getPlaceImage Samples.v8 None Samples.empty_url (u "Kyoto") [])
  = Normal (Some (JStr [])) /\
  fst (Sidebar.getOrFetch Samples.v8 None Samples.empty_url (u "kyoto") (u "Kyoto")
         Samples.empty_store)
  = Normal (Some (JStr (u "https://source.unsplash.com/600x400/?Kyoto"))).
Proof. split; reflexivity. Qed.

(** C10, amended. [getPlaceImage] never throws. It returns the fixed
    placeholder, which is not empty, or the URL of the first result as the
    backend gave it; the placeholder whenever the search comes to nothing
    (no results, or an error). After it, [getOrFetch] returns and caches
    its value when that counts as true, and takes the fallback branch, with
    the URL made from the query, exactly when it does not: when the first
    result's URL is missing or empty. *)
Theorem getPlaceImage_total (E : engine) (K : option jsstring)
    (fetch : nat -> jsstring -> completion Unsplash.response)
    (query : jsstring) (requested : list jsstring) :
  exists v requested',
    Unsplash.getPlaceImage E K fetch query requested = (Normal v, requested') /\
    (v = Some (JStr Unsplash.NO_IMAGE) \/
     exists encoded res data first rest,
       Uri.encode query = Some encoded /\
       fetch (length requested) (Unsplash.search_url K encoded) = Normal res /\
       Unsplash.ok res = true /\ Unsplash.json res = Normal data /\
       Unsplash.results data = first :: rest /\ v = Unsplash.urls_regular first) /\
    ((forall url, Unsplash.finds_nothing (fetch (length requested) url)) ->
     v = Some (JStr Unsplash.NO_IMAGE)) /\
    Js.truthy (Some (JStr Unsplash.NO_IMAGE)) = true /\
    forall key cache,
      Js.truthy (cache !! key) = false ->
      (Js.truthy v = true ->
       exists url, v = Some url /\
         Sidebar.getOrFetch E K fetch key query (Sidebar.Store cache requested)
         = (Normal v, Sidebar.Store (<[key := url]> cache) requested')) /\
      (Js.truthy v = false ->
       exists encoded,
         Uri.encode (Sidebar.query_or_travel query) = Some encoded /\
         let fallback := u "https://source.unsplash.com/600x400/?" ++ encoded in
         Sidebar.getOrFetch E K fetch key query (Sidebar.Store cache requested)
         = (Normal (Some (JStr fallback)),
            Sidebar.Store (<[key := JStr fallback]> cache) requested')).
Proof.
  destruct (getPlaceImage_returns E K fetch query requested) as (v & requested' & Hget).
  exists v, requested'. split; [assumption|].
  split; [apply (getPlaceImage_cases E K fetch query requested v requested' Hget)|].
  split.
  { intros Hnothing.
    pose proof (getPlaceImage_nothing E K fetch query requested Hnothing) as Hv.
    rewrite Hget in Hv. cbn [fst] in Hv. congruence. }
  split; [reflexivity|].
  intros key cache Hmiss.
  apply (getOrFetch_miss E K fetch key query (Sidebar.Store cache requested)
           v requested' Hmiss Hget).
Qed.

(** A search that finds a photo: its URL is returned and cached, and the
    fallback is not made. *)
Lemma getPlaceImage_total_witness :
  Sidebar.getOrFetch Samples.v8 None Samples.one_photo (u "kyoto") (u "Kyoto")
    Samples.empty_store
  = (Normal (Some (JStr (u "https://images.unsplash.com/photo-1"))),
     Sidebar.Store {[ u "kyoto" := JStr (u "https://images.unsplash.com/photo-1") ]}
       [Unsplash.search_url None (u "Kyoto")]).
Proof.
  destruct (getPlaceImage_total Samples.v8 None Samples.one_photo (u "Kyoto") [])
    as (v & requested' & Hget & _ & _ & _ & Hcache).
  injection Hget as <- <-.
  destruct (Hcache (u "kyoto") ∅) as [Htrue _].
  - rewrite lookup_empty. reflexivity.
  - destruct (Htrue eq_refl) as (url & Heq & Hcall).
    injection Heq as <-. exact Hcall.
Defined.


(** * Further properties *)

(** ** The generator *)

(** X1. The validation of lines 119-136 accepts a parsed payload exactly
    when it is an array whose days have a title that counts as true and an
    array for itinerary, whose places have a name, a description and a
    location that count as true, the location with numbers for lat and
    lng; the days it hands on are the elements of the array, unchanged. *)
Theorem validation_accepts_the_schema (E : engine) (chunk : JSON) (start end_ : Z)
    (days : list JSON) :
  Gemini.validate_chunk E chunk start end_ = Normal days <->
  chunk = JArr days /\ Schema.chunk_conforms chunk = true.
Proof. apply validate_chunk_schema. Qed.

(** X2. An array that has no [null] for a day or a place and is not of the
    schema is refused with an error that names the window and the index of
    one of its days: "Invalid day structure at index i in chunk s-e", or
    "Invalid place structure at place j in day i of chunk s-e" for a place
    [j] of that day. *)
Theorem violation_names_day_or_place (E : engine) (start end_ : Z) (days : list JSON) :
  JNull ∉ days -> (forall day, day ∈ days -> JNull ∉ Schema.places_of day) ->
  Schema.chunk_conforms (JArr days) = false ->
  exists index day,
    days !! index = Some day /\
    (Gemini.validate_chunk E (JArr days) start end_
     = Throw (Exn Error (u "Invalid day structure at index " ++ of_nat index
                         ++ u " in chunk " ++ Gemini.days_range start end_)) \/
     exists placeIndex,
       (placeIndex < length (Schema.places_of day))%nat /\
       Gemini.validate_chunk E (JArr days) start end_
       = Throw (Exn Error (u "Invalid place structure at place " ++ of_nat placeIndex
                           ++ u " in day " ++ of_nat index ++ u " of chunk "
                           ++ Gemini.days_range start end_))).
Proof. apply validate_chunk_names_index. Qed.

(** A value is none of the elements of an explicit list. *)
Ltac not_in_list :=
  let H := fresh in
  cbn; intros H;
  repeat (apply elem_of_cons in H as [H|H]; [discriminate|]);
  inversion H.

(** A day without a title after a good one: the array is refused with an
    error that names the index of one of its days. *)
Lemma violation_names_day_or_place_witness :
  exists index day,
    (Samples.one_day_plan ++ [JObj []]) !! index = Some day /\
    (Gemini.validate_chunk Samples.v8 (JArr (Samples.one_day_plan ++ [JObj []])) 8 10
     = Throw (Exn Error (u "Invalid day structure at index " ++ of_nat index
                         ++ u " in chunk " ++ Gemini.days_range 8 10)) \/
     exists placeIndex,
       (placeIndex < length (Schema.places_of day))%nat /\
       Gemini.validate_chunk Samples.v8 (JArr (Samples.one_day_plan ++ [JObj []])) 8 10
       = Throw (Exn Error (u "Invalid place structure at place " ++ of_nat placeIndex
                           ++ u " in day " ++ of_nat index ++ u " of chunk "
                           ++ Gemini.days_range 8 10))).
Proof.
  apply (violation_names_day_or_place Samples.v8 8 10 (Samples.one_day_plan ++ [JObj []])).
  - not_in_list.
  - intros day Hday.
    apply list_elem_of_In in Hday. cbn in Hday.
    destruct Hday as [<-|[<-|[]]]; not_in_list.
  - reflexivity.
Defined.

Lemma forallb_concat {A} (f : A -> bool) (ls : list (list A)) :
  (forall l, l ∈ ls -> forallb f l = true) -> forallb f (concat ls) = true.
Proof.
  induction ls as [|l ls IH]; intros Hall; [reflexivity|].
  cbn [concat]. rewrite forallb_app, (Hall l), IH; [reflexivity | |left].
  intros l' Hl'. apply Hall. right. assumption.
Qed.

(** The days a window gives are of the schema. *)
Lemma window_conforms (E : engine) (model : nat -> jsstring -> completion jsstring)
    (city budget : jsstring) (days : Z) (k : nat) (c : list JSON) :
  Gemini.window E model city budget days k = Normal c ->
  forallb Schema.day_conforms c = true.
Proof.
  unfold Gemini.window, Gemini.read_chunk.
  destruct (model k (Gemini.window_prompt city budget days k)) as [text|e];
    cbn [bind]; [|discriminate].
  destruct (Gemini.parse_chunk E (Gemini.clean text) (Gemini.window_start k)
              (Gemini.window_end days k)) as [chunk|e]; cbn [bind]; [|discriminate].
  intros Hvalid. apply validate_chunk_schema in Hvalid as [-> Hschema]. exact Hschema.
Qed.

(** What [generateItinerary] returns with a key: a plan of days of the
    schema. *)
Lemma generated_plans_conform
    (E : engine) (apiKey : option jsstring)
    (model : nat -> jsstring -> completion jsstring)
    (city budget : jsstring) (days : Z) (r : Gemini.run) :
  Js.truthy (JStr <$> apiKey) = true ->
  Gemini.generateItinerary E apiKey model city budget days = Some r ->
  exists plans,
    Gemini.outcome r = Normal plans /\ forallb Schema.day_conforms plans = true.
Proof.
  intros Hkey Hrun.
  destruct (first_failure E model city budget days (Gemini.window_count days))
    as [[cs Hcs]|(k & e & Hk & Hbefore & Hfail)].
  - rewrite (generateItinerary_all_windows E apiKey model city budget days Hkey cs Hcs)
      in Hrun.
    injection Hrun as <-. eexists. split; [reflexivity|].
    apply forallb_concat. intros l Hl.
    apply list_elem_of_In, in_map_iff in Hl as (k & <- & Hk).
    apply in_seq in Hk. eapply window_conforms, Hcs. lia.
  - apply window_in_range in Hk.
    rewrite (generateItinerary_fails_at E apiKey model city budget days Hkey k e
               Hk Hbefore Hfail) in Hrun.
    injection Hrun as <-. eexists. split; reflexivity.
Qed.

(** X3. With the API key configured, every day of the plan that
    [generateItinerary] returns is of the schema, be it the days of the
    windows or the fallback: it has a title and an array of places, each
    with a name, a description and a location with numbers for lat and
    lng. *)
Theorem generated_plans_are_of_the_schema
    (E : engine) (apiKey : option jsstring)
    (model : nat -> jsstring -> completion jsstring)
    (city budget : jsstring) (days : Z) :
  Js.truthy (JStr <$> apiKey) = true ->
  exists r plans,
    Gemini.generateItinerary E apiKey model city budget days = Some r /\
    Gemini.outcome r = Normal plans /\ forallb Schema.day_conforms plans = true.
Proof.
  intros Hkey.
  destruct (generateItinerary_total E apiKey model city budget days) as [r Hrun].
  destruct (generated_plans_conform E apiKey model city budget days r Hkey Hrun)
    as (plans & Hout & Hok).
  exists r, plans. split; [exact Hrun|]. split; [exact Hout | exact Hok].
Qed.

(** The days of a run that fell back. *)
Lemma generated_plans_are_of_the_schema_witness :
  exists r plans,
    Gemini.generateItinerary Samples.v8 Samples.key Samples.chatty (u "Kyoto") (u "900") 5
    = Some r /\
    Gemini.outcome r = Normal plans /\ forallb Schema.day_conforms plans = true.
Proof.
  apply (generated_plans_are_of_the_schema Samples.v8 Samples.key Samples.chatty
           (u "Kyoto") (u "900") 5).
  reflexivity.
Defined.

(** X4. For a number of days that is zero or less the loop is not entered:
    with the API key configured, [generateItinerary] sends no request and
    returns the empty plan; it logs the warning about the number of days
    unless that number is 0. *)
Theorem no_days_no_requests (E : engine) (apiKey : option jsstring)
    (model : nat -> jsstring -> completion jsstring)
    (city budget : jsstring) (days : Z) :
  Js.truthy (JStr <$> apiKey) = true ->
  days <= 0 ->
  Gemini.generateItinerary E apiKey model city budget days
  = Some (Gemini.Run (Normal []) []
            (if decide (days = 0) then [] else [Gemini.mismatch_warning days 0])).
Proof.
  intros Hkey Hdays.
  unfold Gemini.generateItinerary, Gemini.generateItinerary_within.
  rewrite Hkey. cbn [negb].
  replace (Z.to_nat days) with O by lia. cbn [Gemini.chunks].
  destruct (1 <=? days) eqn:Hle; [apply Z.leb_le in Hle; lia|].
  cbn [length]. f_equal. f_equal.
  destruct (decide (Z.of_nat 0 = days)), (decide (days = 0)); try reflexivity; lia.
Qed.

Lemma no_days_no_requests_witness :
  Gemini.generateItinerary Samples.v8 Samples.key Samples.steady (u "Kyoto") (u "900") (-2)
  = Some (Gemini.Run (Normal []) [] [Gemini.mismatch_warning (-2) 0]).
Proof.
  apply (no_days_no_requests Samples.v8 Samples.key Samples.steady (u "Kyoto") (u "900") (-2)).
  - reflexivity.
  - lia.
Defined.

(** The days of the first [n] windows, when each window gives as many days
    as it was asked for. *)
Lemma full_windows_length (days : Z) (cs : nat -> list JSON) (n : nat) :
  (forall k, (k < n)%nat ->
     Z.of_nat (length (cs k))
     = Gemini.window_end days k - Gemini.window_start k + 1) ->
  (n <= Gemini.window_count days)%nat ->
  Z.of_nat (length (concat (map cs (seq 0 n))))
  = if decide (n = Gemini.window_count days) then Z.max days 0
    else Gemini.CHUNK_SIZE * Z.of_nat n.
Proof.
  induction n as [|n IH]; intros Hsizes Hle.
  - cbn. destruct (decide (O = Gemini.window_count days)) as [Hz|Hnz]; [|reflexivity].
    destruct (Z.max_spec days 0) as [[_ ->]|[Hpos ->]]; [reflexivity|].
    assert (Hin : Gemini.window_start 0 <= days -> False).
    { rewrite window_in_range. lia. }
    unfold Gemini.window_start, Gemini.CHUNK_SIZE in Hin. lia.
  - rewrite seq_S, map_app, concat_app, length_app, Nat2Z.inj_add.
    cbn [map concat Nat.add]. rewrite app_nil_r, (Hsizes n) by lia.
    rewrite IH; [|intros k Hk; apply Hsizes; lia | lia].
    destruct (decide (n = Gemini.window_count days)) as [Heq|_]; [lia|].
    destruct (windows_tile days n) as (_ & Hfull & Hlast).
    destruct (decide (S n = Gemini.window_count days)) as [Heq|Hne].
    + rewrite (Hlast Heq).
      assert (Hin : Gemini.window_start n <= days) by (apply window_in_range; lia).
      unfold Gemini.window_start, Gemini.CHUNK_SIZE in *. lia.
    + destruct (Hfull ltac:(lia)) as [-> _].
      unfold Gemini.window_start, Gemini.CHUNK_SIZE. lia.
Qed.

(** X5. With the API key configured and a number of days that is not
    negative, when every window gives as many days as it was asked for,
    [generateItinerary] returns exactly that number of days and logs no
    warning. *)
Theorem full_windows_give_all_days
    (E : engine) (apiKey : option jsstring)
    (model : nat -> jsstring -> completion jsstring)
    (city budget : jsstring) (days : Z) (cs : nat -> list JSON) :
  Js.truthy (JStr <$> apiKey) = true ->
  0 <= days ->
  (forall k, (k < Gemini.window_count days)%nat ->
     Gemini.window E model city budget days k = Normal (cs k) /\
     Z.of_nat (length (cs k))
     = Gemini.window_end days k - Gemini.window_start k + 1) ->
  exists plans sent,
    Gemini.generateItinerary E apiKey model city budget days
    = Some (Gemini.Run (Normal plans) sent []) /\
    Z.of_nat (length plans) = days.
Proof.
  intros Hkey Hdays Hall.
  assert (Hlen : Z.of_nat (length (concat (map cs (seq 0 (Gemini.window_count days)))))
                 = days).
  { rewrite (full_windows_length days cs (Gemini.window_count days));
      [|intros k Hk; apply Hall, Hk | lia].
    destruct (decide (Gemini.window_count days = Gemini.window_count days)); lia. }
  rewrite (generateItinerary_all_windows E apiKey model city budget days Hkey cs)
    by (intros k Hk; apply Hall, Hk).
  cbn zeta. destruct (decide _) as [_|Hne]; [|contradiction].
  eexists _, _. split; [reflexivity | assumption].
Qed.

(** One day asked for and one day given. *)
Lemma full_windows_give_all_days_witness :
  exists sent,
    Gemini.generateItinerary Samples.v8 Samples.key Samples.steady (u "Kyoto") (u "900") 1
    = Some (Gemini.Run (Normal Samples.one_day_plan) sent []).
Proof.
  destruct (full_windows_give_all_days Samples.v8 Samples.key Samples.steady
              (u "Kyoto") (u "900") 1 (fun _ => Samples.one_day_plan))
    as (plans & sent & Hrun & _).
  - reflexivity.
  - lia.
  - intros k Hk. destruct k as [|k]; [split; vm_compute; reflexivity|].
    vm_compute in Hk. lia.
  - exists sent. rewrite Hrun. vm_compute in Hrun.
    injection Hrun as <- _. reflexivity.
Defined.

(** ** The image search and the image cache *)

Lemma hex_digit_unreserved (d : N) : (d < 16)%N -> Uri.unreserved (Uri.hex_digit d) = true.
Proof.
  intros Hd.
  assert (Hall : forallb (fun d => Uri.unreserved (Uri.hex_digit d))
                   (map N.of_nat (seq 0 16)) = true) by reflexivity.
  rewrite forallb_forall in Hall. apply Hall.
  apply in_map_iff. exists (N.to_nat d). split; [apply N2Nat.id|].
  apply in_seq. lia.
Qed.

(** What stands for a byte is a percent sign and two hexadecimal digits. *)
Lemma percent_safe (b : N) :
  (b < 256)%N -> Forall (fun c => Uri.unreserved c = true \/ c = 37%N) (Uri.percent b).
Proof.
  intros Hb. unfold Uri.percent.
  apply Forall_cons. split; [right; reflexivity|].
  apply Forall_cons. split.
  { left. apply hex_digit_unreserved. apply N.Div0.div_lt_upper_bound. lia. }
  apply Forall_cons. split; [|apply Forall_nil; exact I].
  left. apply hex_digit_unreserved. apply N.mod_lt. lia.
Qed.

Lemma utf8_bytes (cp : N) : (cp < 1114112)%N -> Forall (fun b => (b < 256)%N) (Uri.utf8 cp).
Proof.
  intros Hcp. unfold Uri.utf8.
  destruct (cp <? 128)%N eqn:H1; [apply N.ltb_lt in H1; repeat constructor; lia|].
  destruct (cp <? 2048)%N eqn:H2.
  { apply N.ltb_lt in H2. repeat constructor.
    - pose proof (N.Div0.div_lt_upper_bound cp 64 32). lia.
    - pose proof (N.mod_lt cp 64). lia. }
  destruct (cp <? 65536)%N eqn:H3.
  { apply N.ltb_lt in H3. repeat constructor.
    - pose proof (N.Div0.div_lt_upper_bound cp 4096 16). lia.
    - pose proof (N.mod_lt (cp / 64) 64). lia.
    - pose proof (N.mod_lt cp 64). lia. }
  repeat constructor.
  - pose proof (N.Div0.div_lt_upper_bound cp 262144 5). lia.
  - pose proof (N.mod_lt (cp / 4096) 64). lia.
  - pose proof (N.mod_lt (cp / 64) 64). lia.
  - pose proof (N.mod_lt cp 64). lia.
Qed.

Lemma escape_safe (cp : N) :
  (cp < 1114112)%N -> Forall (fun c => Uri.unreserved c = true \/ c = 37%N) (Uri.escape cp).
Proof.
  intros Hcp. unfold Uri.escape.
  pose proof (utf8_bytes cp Hcp) as Hbytes.
  induction Hbytes as [|b bs Hb _ IH]; cbn [map concat]; [constructor|].
  apply Forall_app. split; [apply percent_safe, Hb | exact IH].
Qed.

(** The encoding of a string of code units holds nothing but the
    characters that are left as they are and percent signs. *)
Lemma encode_safe (s : jsstring) : forall t,
  Forall (fun c => (c < 65536)%N) s ->
  Uri.encode s = Some t ->
  Forall (fun c => Uri.unreserved c = true \/ c = 37%N) t.
Proof.
  remember (length s) as n eqn:Hn. revert s Hn.
  induction n as [n IH] using lt_wf_ind. intros s Hn t Hunits.
  destruct s as [|c r]; cbn [Uri.encode].
  { intros H. injection H as <-. constructor. }
  apply Forall_cons in Hunits as [Hc Hr].
  destruct (Uri.unreserved c) eqn:Hun.
  { destruct (Uri.encode r) as [t'|] eqn:Hr'; cbn; [|discriminate].
    intros H. injection H as <-. constructor; [left; assumption|].
    apply (IH (length r)) with (s := r); subst; cbn; auto; lia. }
  destruct (Uri.is_low_surrogate c); [discriminate|].
  destruct (Uri.is_high_surrogate c) eqn:Hhigh.
  - destruct r as [|d r']; [discriminate|].
    destruct (Uri.is_low_surrogate d) eqn:Hlow; [|discriminate].
    apply Forall_cons in Hr as [Hd Hr'].
    destruct (Uri.encode r') as [t'|] eqn:Ht'; cbn; [|discriminate].
    intros H. injection H as <-. apply Forall_app. split.
    + apply escape_safe.
      unfold Uri.is_high_surrogate, Uri.is_low_surrogate in *.
      apply andb_true_iff in Hhigh as [H1 H2], Hlow as [H3 H4].
      apply N.leb_le in H1, H2, H3, H4. lia.
    + apply (IH (length r')) with (s := r'); subst; cbn; auto; lia.
  - destruct (Uri.encode r) as [t'|] eqn:Hr'; cbn; [|discriminate].
    intros H. injection H as <-. apply Forall_app. split.
    + apply escape_safe. lia.
    + apply (IH (length r)) with (s := r); subst; cbn; auto; lia.
Qed.

(** X6. [getPlaceImage] makes one request at most. For a query that cannot
    be encoded (one with a surrogate that is not half of a pair) it makes
    none and returns the placeholder. Otherwise the one URL it fetches is
    the search address with the encoded query in it, and the encoded query
    holds only letters, digits, the marks [- _ . ! ~ * ' ( )] and percent
    signs: the query cannot add to or cut short the parameters of the
    request. *)
Theorem getPlaceImage_request (E : engine) (K : option jsstring)
    (fetch : nat -> jsstring -> completion Unsplash.response)
    (query : jsstring) (requested : list jsstring) :
  Forall (fun c => (c < 65536)%N) query ->
  (Uri.encode query = None ->
   Unsplash.getPlaceImage E K fetch query requested
   = (Normal (Some (JStr Unsplash.NO_IMAGE)), requested)) /\
  (forall encoded, Uri.encode query = Some encoded ->
   snd (Unsplash.getPlaceImage E K fetch query requested)
   = requested
     ++ [u "https://api.unsplash.com/search/photos?query=" ++ encoded
         ++ u "&client_id=" ++ default (u "undefined") K
         ++ u "&orientation=landscape&per_page=1"] /\
   Forall (fun c => Uri.unreserved c = true \/ c = 37%N) encoded).
Proof.
  intros Hunits.
  unfold Unsplash.getPlaceImage, Unsplash.search, Uri.encodeURIComponent.
  split.
  { intros ->. reflexivity. }
  intros encoded Henc. rewrite Henc.
  split; [|apply (encode_safe query encoded Hunits Henc)].
  destruct (fetch (length requested) (Unsplash.search_url K encoded)) as [res|e];
    cbn [bind]; [|reflexivity].
  destruct (negb (Unsplash.ok res)); [reflexivity|].
  destruct (Unsplash.json res) as [data|e]; cbn [bind]; [|reflexivity].
  destruct (Unsplash.results data); reflexivity.
Qed.

(** The request for "Eiffel Tower & co". *)
Lemma getPlaceImage_request_witness :
  snd (Unsplash.getPlaceImage Samples.v8 (Some (u "KEY")) Samples.no_results
         (u "Eiffel Tower & co") [])
  = []
    ++ [u "https://api.unsplash.com/search/photos?query="
        ++ u "Eiffel%20Tower%20%26%20co"
        ++ u "&client_id=" ++ default (u "undefined") (Some (u "KEY"))
        ++ u "&orientation=landscape&per_page=1"] /\
  Forall (fun c => Uri.unreserved c = true \/ c = 37%N) (u "Eiffel%20Tower%20%26%20co").
Proof.
  destruct (getPlaceImage_request Samples.v8 (Some (u "KEY")) Samples.no_results
              (u "Eiffel Tower & co") []) as [_ H].
  - repeat (apply Forall_cons; split; [reflexivity|]). apply Forall_nil. exact I.
  - apply (H (u "Eiffel%20Tower%20%26%20co")). vm_compute. reflexivity.
Defined.

(** [getPlaceImage] makes one request at most. *)
Lemma getPlaceImage_one_request (E : engine) (K : option jsstring)
    (fetch : nat -> jsstring -> completion Unsplash.response)
    (query : jsstring) (requested : list jsstring) :
  let requested' := snd (Unsplash.getPlaceImage E K fetch query requested) in
  requested' = requested \/ exists url, requested' = requested ++ [url].
Proof.
  cbn zeta. unfold Unsplash.getPlaceImage, Unsplash.search, Uri.encodeURIComponent.
  destruct (Uri.encode query) as [encoded|]; [|left; reflexivity].
  right. exists (Unsplash.search_url K encoded).
  destruct (fetch (length requested) (Unsplash.search_url K encoded)) as [res|e];
    cbn [bind]; [|reflexivity].
  destruct (negb (Unsplash.ok res)); [reflexivity|].
  destruct (Unsplash.json res) as [data|e]; cbn [bind]; [|reflexivity].
  destruct (Unsplash.results data); reflexivity.
Qed.

(** A call of [getOrFetch] for a key leaves the other entries as they
    were. *)
Lemma getOrFetch_frame (E : engine) (K : option jsstring)
    (fetch : nat -> jsstring -> completion Unsplash.response)
    (key query : jsstring) (st : Sidebar.store) (k : jsstring) :
  k <> key ->
  Sidebar.get k (snd (Sidebar.getOrFetch E K fetch key query st)) = Sidebar.get k st.
Proof.
  intros Hne.
  destruct (Js.truthy (Sidebar.get key st)) eqn:Hcur.
  { unfold Sidebar.getOrFetch. rewrite Hcur. reflexivity. }
  destruct (getPlaceImage_returns E K fetch query (Sidebar.requested st))
    as (v & requested' & Hget).
  destruct (getOrFetch_miss E K fetch key query st v requested' Hcur Hget)
    as [Htrue Hfalse].
  destruct (Js.truthy v) eqn:Hv.
  - destruct (Htrue eq_refl) as (url & -> & ->). cbn [snd].
    unfold Sidebar.get. cbn [Sidebar.cache]. apply lookup_insert_ne. congruence.
  - destruct (Hfalse eq_refl) as (encoded & _ & ->). cbn [snd].
    unfold Sidebar.get. cbn [Sidebar.cache]. apply lookup_insert_ne. congruence.
Qed.

(** X7. A call of [getOrFetch] for a key leaves every other entry of the
    cache as it was, and the entry of the key too when that counted as
    true: then nothing is fetched and the store is left as it is.
    Otherwise the entry of the key becomes a value that counts as true. It
    makes one request at most. *)
Theorem getOrFetch_touches_only_its_key (E : engine) (K : option jsstring)
    (fetch : nat -> jsstring -> completion Unsplash.response)
    (key query : jsstring) (st : Sidebar.store) :
  let st' := snd (Sidebar.getOrFetch E K fetch key query st) in
  (forall k, k <> key -> Sidebar.get k st' = Sidebar.get k st) /\
  (if Js.truthy (Sidebar.get key st) then st' = st
   else exists url, Sidebar.get key st' = Some url /\ Js.truthy (Some url) = true) /\
  (Sidebar.requested st' = Sidebar.requested st \/
   exists url, Sidebar.requested st' = Sidebar.requested st ++ [url]).
Proof.
  cbn zeta. split; [intros k; apply getOrFetch_frame|].
  destruct (Js.truthy (Sidebar.get key st)) eqn:Hcur.
  { unfold Sidebar.getOrFetch. rewrite Hcur. cbn [snd]. auto. }
  split.
  { destruct (getOrFetch_caches E K fetch key query st)
      as (url & st' & Hcall & Hget & Htrue).
    rewrite Hcall. cbn [snd]. eauto. }
  pose proof (getPlaceImage_one_request E K fetch query (Sidebar.requested st)) as Hreq.
  cbn zeta in Hreq.
  destruct (getPlaceImage_returns E K fetch query (Sidebar.requested st))
    as (v & requested' & Hget).
  rewrite Hget in Hreq. cbn [snd] in Hreq.
  destruct (getOrFetch_miss E K fetch key query st v requested' Hcur Hget)
    as [Htrue Hfalse].
  destruct (Js.truthy v) eqn:Hv.
  - destruct (Htrue eq_refl) as (url & -> & ->). exact Hreq.
  - destruct (Hfalse eq_refl) as (encoded & _ & ->). exact Hreq.
Qed.

(** X8. If every entry of the cache counts as true, as in the empty cache
    of a new page, so it is after a call of [getOrFetch]: no call stores a
    value that a later call would fetch again. *)
Theorem getOrFetch_keeps_cache_true (E : engine) (K : option jsstring)
    (fetch : nat -> jsstring -> completion Unsplash.response)
    (key query : jsstring) (st : Sidebar.store) :
  (forall k v, Sidebar.get k st = Some v -> Js.truthy (Some v) = true) ->
  forall k v,
    Sidebar.get k (snd (Sidebar.getOrFetch E K fetch key query st)) = Some v ->
    Js.truthy (Some v) = true.
Proof.
  intros Hinv k v.
  destruct (getOrFetch_caches E K fetch key query st) as (url & st' & Hcall & Hget & Htrue).
  rewrite Hcall. cbn [snd].
  destruct (decide (k = key)) as [->|Hne]; [congruence|].
  intros Hk. apply (Hinv k v). rewrite <- Hk. symmetry.
  pose proof (getOrFetch_frame E K fetch key query st k Hne) as Hframe.
  rewrite Hcall in Hframe. exact Hframe.
Qed.

(** From the empty cache, with a search whose first result has an empty
    URL: what is stored is the fallback address. *)
Lemma getOrFetch_keeps_cache_true_witness :
  Sidebar.get (u "kyoto")
    (snd (Sidebar.getOrFetch Samples.v8 None Samples.empty_url
            (u "kyoto") (u "Kyoto") Samples.empty_store))
  = Some (JStr (u "https://source.unsplash.com/600x400/?Kyoto")) /\
  Js.truthy (Some (JStr (u "https://source.unsplash.com/600x400/?Kyoto"))) = true.
Proof.
  assert (Hstored :
    Sidebar.get (u "kyoto")
      (snd (Sidebar.getOrFetch Samples.v8 None Samples.empty_url
              (u "kyoto") (u "Kyoto") Samples.empty_store))
    = Some (JStr (u "https://source.unsplash.com/600x400/?Kyoto"))).
  { unfold Sidebar.getOrFetch, Sidebar.get.
    cbn [Samples.empty_store Sidebar.cache]. rewrite lookup_empty.
    cbn. apply lookup_insert_eq. }
  split; [exact Hstored|].
  apply (getOrFetch_keeps_cache_true Samples.v8 None Samples.empty_url
           (u "kyoto") (u "Kyoto") Samples.empty_store) with (k := u "kyoto").
  - intros k v. unfold Sidebar.get. cbn [Samples.empty_store Sidebar.cache].
    rewrite lookup_empty. discriminate.
  - exact Hstored.
Defined.

(** ** The page *)

(** X9. [clamp(n, min, max)] with [min <= max] lies between [min] and
    [max], is [n] itself exactly when [n] lies between them, and clamping
    again changes nothing. *)
Theorem clamp_range (n min max : Z) :
  min <= max ->
  min <= Home.clamp n min max <= max /\
  (Home.clamp n min max = n <-> min <= n <= max) /\
  Home.clamp (Home.clamp n min max) min max = Home.clamp n min max.
Proof. unfold Home.clamp. lia. Qed.

Lemma clamp_range_witness :
  1 <= Home.clamp 40 1 21 <= 21 /\
  (Home.clamp 40 1 21 = 40 <-> 1 <= 40 <= 21) /\
  Home.clamp (Home.clamp 40 1 21) 1 21 = Home.clamp 40 1 21.
Proof. apply (clamp_range 40 1 21). lia. Defined.

Section SubmitFacts.

Variable E : engine.
Variable H : Home.host.
Variable apiKey : option jsstring.
Variable model : nat -> jsstring -> completion jsstring.

Lemma missing_false (n : option Z) :
  Home.missing n = false <-> exists z, n = Some z /\ 0 < z.
Proof.
  unfold Home.missing. destruct n as [z|].
  - rewrite orb_false_iff, Z.eqb_neq, Z.leb_gt. split.
    + intros [_ Hz]. eauto.
    + intros (z' & Heq & Hz). injection Heq as ->. lia.
  - split; [discriminate | intros (z & Heq & _); discriminate].
Qed.

Lemma handleSubmit_complete (f : Home.fields) (st : Home.page) :
  Home.complete f ->
  Home.handleSubmit E H apiKey model f st
  = match Gemini.generateItinerary E apiKey model (trim (Home.city f))
            (Home.number_toString H (Home.Number (Home.budget f)) 0)
            (Home.clamp (Home.Number (Home.inputDays f)) 1 21) with
    | None => None
    | Some r =>
        match Gemini.outcome r with
        | Normal res =>
            Some (Home.Submitted
                    (Home.Page res (Home.clamp (Home.Number (Home.inputDays f)) 1 21) 0
                               (Some JNull) (Some JNull) false)
                    [] (Gemini.prompts r) (Gemini.warnings r))
        | Throw err =>
            Some (Home.Submitted (Home.Page [] 0 0 (Some JNull) (Some JNull) false) []
                    (Gemini.prompts r) (Gemini.warnings r))
        end
    end.
Proof.
  intros (Hcity & Hbudget & Hdays). unfold Home.handleSubmit.
  destruct (trim (Home.city f)) as [|c t] eqn:Htrim; [contradiction|].
  cbn [Js.truthy negb].
  apply missing_false in Hbudget, Hdays. rewrite Hbudget, Hdays. reflexivity.
Qed.

End SubmitFacts.

Lemma window_count_of_clamped (n : Z) :
  (1 <= Gemini.window_count (Home.clamp n 1 21) <= 3)%nat.
Proof.
  unfold Gemini.window_count, Gemini.CHUNK_SIZE, Home.clamp.
  assert (Hlo : 1 <= (Z.max 1 (Z.min 21 n) + 7 - 1) / 7)
    by (apply Z.div_le_lower_bound; lia).
  assert (Hhi : (Z.max 1 (Z.min 21 n) + 7 - 1) / 7 < 4)
    by (apply Z.div_lt_upper_bound; lia).
  lia.
Qed.

(** The submit of a complete form comes to an end. *)
Lemma submit_with_key_total (E : engine) (H : Home.host)
    (apiKey : option jsstring) (model : nat -> jsstring -> completion jsstring)
    (f : Home.fields) (st : Home.page) :
  Home.complete f ->
  exists out, Home.handleSubmit E H apiKey model f st = Some out.
Proof.
  intros Hcomplete.
  rewrite (handleSubmit_complete E H apiKey model f st Hcomplete).
  destruct (generateItinerary_total E apiKey model (trim (Home.city f))
              (Home.number_toString H (Home.Number (Home.budget f)) 0)
              (Home.clamp (Home.Number (Home.inputDays f)) 1 21)) as [r ->].
  destruct (Gemini.outcome r); eauto.
Qed.

(** What [handleSubmit] does of a form that is not complete. *)
Lemma handleSubmit_incomplete (E : engine) (H : Home.host)
    (apiKey : option jsstring) (model : nat -> jsstring -> completion jsstring)
    (f : Home.fields) (st : Home.page) :
  ~ Home.complete f ->
  exists a, Home.handleSubmit E H apiKey model f st
            = Some (Home.Submitted st [a] [] []).
Proof.
  unfold Home.handleSubmit, Home.complete. intros Hnot.
  destruct (trim (Home.city f)) as [|c t] eqn:Htrim; cbn [Js.truthy negb]; [eauto|].
  destruct (Home.missing (Home.budget f)) eqn:Hb; [eauto|].
  destruct (Home.missing (Home.inputDays f)) eqn:Hd; [eauto|].
  exfalso. apply Hnot. apply missing_false in Hb, Hd.
  split; [discriminate | split; assumption].
Qed.

Lemma complete_or_not (f : Home.fields) : Home.complete f \/ ~ Home.complete f.
Proof.
  unfold Home.complete.
  destruct (trim (Home.city f)) as [|c t]; [right; intros (Hc & _); apply Hc; reflexivity|].
  destruct (Home.missing (Home.budget f)) eqn:Hb.
  { right. intros (_ & Hb' & _). apply missing_false in Hb'. congruence. }
  destruct (Home.missing (Home.inputDays f)) eqn:Hd.
  { right. intros (_ & _ & Hd'). apply missing_false in Hd'. congruence. }
  left. apply missing_false in Hb, Hd. split; [discriminate | split; assumption].
Qed.

(** X10. [handleSubmit] comes to an end, and nothing is sent to the model
    unless the form is complete (a city that is not blank, a budget and a
    number of days above 0) and the API key is configured. Of an
    incomplete form [handleSubmit] gives one alert and leaves the page as
    it is; of a complete one it gives none. *)
Theorem submit_needs_a_complete_form (E : engine) (H : Home.host)
    (apiKey : option jsstring) (model : nat -> jsstring -> completion jsstring)
    (f : Home.fields) (st : Home.page) :
  exists out,
    Home.handleSubmit E H apiKey model f st = Some out /\
    (Home.complete f -> Home.alerts out = []) /\
    (~ Home.complete f ->
     Home.state out = st /\ length (Home.alerts out) = 1%nat /\ Home.sent out = []) /\
    (Home.sent out <> [] -> Home.complete f /\ Js.truthy (JStr <$> apiKey) = true).
Proof.
  destruct (complete_or_not f) as [Hcomplete|Hnot].
  - destruct (submit_with_key_total E H apiKey model f st Hcomplete) as [out Hsubmit].
    exists out. split; [exact Hsubmit|].
    rewrite (handleSubmit_complete E H apiKey model f st Hcomplete) in Hsubmit.
    split; [|split]; [|intros Hnot; contradiction|].
    + intros _.
      destruct (Gemini.generateItinerary _ _ _ _ _ _) as [r|]; [|discriminate].
      destruct (Gemini.outcome r); injection Hsubmit as <-; reflexivity.
    + intros Hsent. split; [assumption|].
      destruct (Js.truthy (JStr <$> apiKey)) eqn:Hkey; [reflexivity|].
      exfalso. apply Hsent. revert Hsubmit.
      unfold Gemini.generateItinerary, Gemini.generateItinerary_within.
      rewrite Hkey. cbn. intros Hout. injection Hout as <-. reflexivity.
  - destruct (handleSubmit_incomplete E H apiKey model f st Hnot) as [a Hrefused].
    eexists. split; [exact Hrefused|]. cbn.
    split; [intros Hc; contradiction|]. split; [auto|].
    intros Hsent. contradiction.
Qed.

(** X11. Of a complete form, without the API key: the error that
    [generateItinerary] throws is caught; [handleSubmit] sends nothing,
    gives no alert, and leaves a page without days whose loading is over. *)
Theorem submit_without_key (E : engine) (H : Home.host)
    (apiKey : option jsstring) (model : nat -> jsstring -> completion jsstring)
    (f : Home.fields) (st : Home.page) :
  Home.complete f ->
  Js.truthy (JStr <$> apiKey) = false ->
  Home.handleSubmit E H apiKey model f st
  = Some (Home.Submitted (Home.Page [] 0 0 (Some JNull) (Some JNull) false) [] [] []).
Proof.
  intros Hcomplete Hkey.
  rewrite (handleSubmit_complete E H apiKey model f st Hcomplete).
  unfold Gemini.generateItinerary, Gemini.generateItinerary_within.
  rewrite Hkey. reflexivity.
Qed.

Lemma submit_without_key_witness :
  Home.handleSubmit Samples.v8 PageSamples.ascii_host None Samples.steady
    PageSamples.kyoto_form PageSamples.new_page
  = Some (Home.Submitted (Home.Page [] 0 0 (Some JNull) (Some JNull) false) [] [] []).
Proof.
  apply (submit_without_key Samples.v8 PageSamples.ascii_host None Samples.steady
           PageSamples.kyoto_form PageSamples.new_page).
  - split; [vm_compute; discriminate|].
    split; eexists; (split; [reflexivity | lia]).
  - reflexivity.
Defined.

(** X12. Of a complete form, with the API key: [handleSubmit] asks for the
    number of days of the form brought into 1 to 21, for the city without
    the white space around it, with one request at least and three at
    most. It leaves a page that is not loading, on its first day, with that
    number for its days and the plan returned for its itinerary, every day
    of which is of the schema. *)
Theorem submit_with_key (E : engine) (H : Home.host)
    (apiKey : option jsstring) (model : nat -> jsstring -> completion jsstring)
    (f : Home.fields) (st : Home.page) :
  Home.complete f ->
  Js.truthy (JStr <$> apiKey) = true ->
  let d := Home.clamp (Home.Number (Home.inputDays f)) 1 21 in
  exists out n,
    Home.handleSubmit E H apiKey model f st = Some out /\
    Home.alerts out = [] /\
    Home.days (Home.state out) = d /\ 1 <= d <= 21 /\
    Home.selectedDay (Home.state out) = 0 /\
    Home.loading (Home.state out) = false /\
    forallb Schema.day_conforms (Home.itins (Home.state out)) = true /\
    Home.sent out
    = map (Gemini.window_prompt (trim (Home.city f))
             (Home.number_toString H (Home.Number (Home.budget f)) 0) d) (seq 0 n) /\
    (1 <= n <= 3)%nat.
Proof.
  intros Hcomplete Hkey d.
  rewrite (handleSubmit_complete E H apiKey model f st Hcomplete). fold d.
  destruct (requests_follow_windows E apiKey model (trim (Home.city f))
              (Home.number_toString H (Home.Number (Home.budget f)) 0) d Hkey)
    as (r & n & Hrun & Hsent & Hle & _ & Hlast).
  rewrite Hrun.
  destruct (generated_plans_conform E apiKey model _ _ d r Hkey Hrun)
    as (plans & Hout & Hok).
  rewrite Hout. eexists _, n. split; [reflexivity|]. cbn.
  pose proof (window_count_of_clamped (Home.Number (Home.inputDays f))) as Hcount.
  fold d in Hcount.
  repeat split; try assumption; try (unfold d, Home.clamp; lia).
  destruct Hlast as [->|(k & e & -> & _)]; lia.
Qed.

Lemma submit_with_key_witness :
  exists out n,
    Home.handleSubmit Samples.v8 PageSamples.ascii_host Samples.key Samples.steady
      PageSamples.kyoto_form PageSamples.new_page = Some out /\
    Home.days (Home.state out) = 21 /\
    Home.sent out
    = map (Gemini.window_prompt (u "Kyoto") (u "900") 21) (seq 0 n) /\
    (1 <= n <= 3)%nat.
Proof.
  destruct (submit_with_key Samples.v8 PageSamples.ascii_host Samples.key Samples.steady
              PageSamples.kyoto_form PageSamples.new_page)
    as (out & n & Hsubmit & _ & Hdays & _ & _ & _ & _ & Hsent & Hn).
  - split; [vm_compute; discriminate|].
    split; eexists; (split; [reflexivity | lia]).
  - reflexivity.
  - exists out, n. split; [exact Hsubmit|]. split; [exact Hdays|].
    split; [exact Hsent | exact Hn].
Defined.
(** ** The places on the map *)

Lemma map_place_imap (places : list JSON) (number index : nat) :
  map Home.place
      (imap (fun i p => Home.MapPlace p number index i (Nat.eqb i 0)) places)
  = places.
Proof.
  apply list_eq. intros i.
  rewrite list_lookup_fmap, list_lookup_imap.
  destruct (places !! i); reflexivity.
Qed.

(** A day of the schema passes the test of line 320 when it has a place. *)
Lemma conforming_day_test (day : JSON) :
  Schema.day_conforms day = true ->
  exists places,
    Home.prop day (u "itinerary") = Some (JArr places) /\
    Schema.places_of day = places /\
    forallb Schema.place_conforms places = true /\
    Js.truthy (Home.itinerary_length (Some day))
    = match places with [] => false | _ => true end.
Proof.
  destruct day as [| b | m e | s | elements | members]; try discriminate.
  cbn [Schema.day_conforms]. intros Hday.
  apply andb_true_iff in Hday as [_ Hday].
  unfold Home.itinerary_length, Home.optional_prop, Home.prop, Schema.places_of.
  destruct (Js.own_property (u "itinerary") members)
    as [[| b | m e | s | places | ms]|]; try discriminate.
  exists places. repeat split; [assumption|].
  destruct places; reflexivity.
Qed.

Lemma places_from_conforming (E : engine) (days : list JSON) (index number : nat) :
  forallb Schema.day_conforms days = true ->
  exists places,
    Home.places_from E days index number = Normal places /\
    map Home.place places = concat (map Schema.places_of days).
Proof.
  revert index number.
  induction days as [|day rest IH]; intros index number Hdays.
  - exists []. split; reflexivity.
  - cbn [forallb] in Hdays. apply andb_true_iff in Hdays as [Hday Hrest].
    destruct (conforming_day_test day Hday) as (places & Hprop & Hof & _ & Htest).
    cbn [Home.places_from map concat]. rewrite Htest, Hof.
    destruct places as [|p places].
    + apply IH, Hrest.
    + rewrite Hprop.
      destruct (IH (S index) (S number) Hrest) as (later & -> & Hlater).
      eexists. split; [reflexivity|].
      rewrite map_app, map_place_imap, Hlater. reflexivity.
Qed.

Lemma conforming_places (days : list JSON) :
  forallb Schema.day_conforms days = true ->
  forallb Schema.place_conforms (concat (map Schema.places_of days)) = true.
Proof.
  induction days as [|day rest IH]; [reflexivity|].
  cbn [forallb map concat]. intros Hdays.
  apply andb_true_iff in Hdays as [Hday Hrest].
  destruct (conforming_day_test day Hday) as (places & _ & -> & Hplaces & _).
  rewrite forallb_app, Hplaces. apply IH, Hrest.
Qed.

(** The position of a place of the schema: the [lat] and the [lng] of its
    location, in this order, two numbers. *)
Lemma position_conforming (E : engine) (p : Home.map_place) :
  Schema.place_conforms (Home.place p) = true ->
  exists location,
    Home.prop (Home.place p) (u "location") = Some (JObj location) /\
    Home.position E p
    = Normal (Js.own_property (u "lat") location, Js.own_property (u "lng") location) /\
    Js.is_number (Js.own_property (u "lat") location) = true /\
    Js.is_number (Js.own_property (u "lng") location) = true.
Proof.
  unfold Home.position, Home.location, Home.prop.
  destruct (Home.place p) as [| b | m e | s | elements | members]; try discriminate.
  cbn [Schema.place_conforms]. intros Hplace.
  apply andb_true_iff in Hplace as [_ Hplace].
  destruct (Js.own_property (u "location") members)
    as [[| b | m e | s | elements | location]|]; try discriminate.
  apply andb_true_iff in Hplace as [Hlat Hlng].
  exists location. split; [reflexivity|]. split; [reflexivity|]. split; assumption.
Qed.

Lemma map_positions_conforming (E : engine) (places : list Home.map_place) :
  forallb Schema.place_conforms (map Home.place places) = true ->
  exists positions,
    Home.map_positions E places = Normal positions /\
    Forall2 (fun p pos =>
               exists location,
                 Home.prop (Home.place p) (u "location") = Some (JObj location) /\
                 pos = (Js.own_property (u "lat") location,
                        Js.own_property (u "lng") location) /\
                 Js.is_number (fst pos) = true /\ Js.is_number (snd pos) = true)
            places positions.
Proof.
  induction places as [|p rest IH]; intros Hplaces.
  - exists []. split; [reflexivity | constructor].
  - cbn [map forallb] in Hplaces. apply andb_true_iff in Hplaces as [Hp Hrest].
    destruct (position_conforming E p Hp) as (location & Hloc & Hpos & Hlat & Hlng).
    destruct (IH Hrest) as (positions & Hmap & Hall).
    cbn [Home.map_positions]. rewrite Hpos. cbn [bind]. rewrite Hmap. cbn [bind].
    eexists. split; [reflexivity|].
    constructor; [|assumption].
    exists location. split; [assumption|]. split; [reflexivity|]. split; assumption.
Qed.

(** X13. On a plan whose days are of the schema, as [generateItinerary]
    returns them, the page computes its map data without raising:
    [allItineraryData] has the places of the days, in order, and
    [allRoutePositions] has, place by place and in the same order, the
    pair of the [lat] and the [lng] of the location of the place, both
    numbers. *)
Theorem map_data_of_a_plan (E : engine) (itins : list JSON) :
  forallb Schema.day_conforms itins = true ->
  exists places positions,
    Home.allItineraryData E itins = Normal places /\
    map Home.place places = concat (map Schema.places_of itins) /\
    Home.allRoutePositions E itins = Normal positions /\
    length positions = length places /\
    Forall2 (fun p pos =>
               exists location,
                 Home.prop (Home.place p) (u "location") = Some (JObj location) /\
                 pos = (Js.own_property (u "lat") location,
                        Js.own_property (u "lng") location) /\
                 Js.is_number (fst pos) = true /\ Js.is_number (snd pos) = true)
            places positions.
Proof.
  intros Hdays. unfold Home.allRoutePositions, Home.allItineraryData.
  destruct (places_from_conforming E itins 0 1 Hdays) as (places & Hplaces & Hmap).
  destruct (map_positions_conforming E places) as (positions & Hpos & Hall).
  { rewrite Hmap. apply conforming_places, Hdays. }
  exists places, positions. rewrite Hplaces. cbn [bind].
  split; [reflexivity|]. split; [assumption|]. split; [assumption|].
  split; [symmetry; apply (Forall2_length _ _ _ Hall) | assumption].
Qed.

(** A day without places and a day in Kyoto: the one position is that of
    Kinkaku-ji, latitude first. *)
Lemma map_data_of_a_plan_witness :
  Home.allRoutePositions Samples.v8 (Samples.idle_day :: Samples.one_day_plan)
  = Normal [(Some (JNum 350394 (-4)), Some (JNum 1357292 (-4)))].
Proof.
  destruct (map_data_of_a_plan Samples.v8 (Samples.idle_day :: Samples.one_day_plan))
    as (places & positions & Hplaces & _ & Hroute & _ & Hall).
  - vm_compute. reflexivity.
  - rewrite Hroute. f_equal.
    vm_compute in Hplaces. injection Hplaces as <-.
    inversion Hall as [|p pos rest rest' (location & Hloc & Hpos & _) Hrest]; subst.
    inversion Hrest; subst.
    vm_compute in Hloc. injection Hloc as <-. reflexivity.
Defined.

(** A day that passes the test of line 320 and whose places can be
    walked has a first place. *)
Lemma tested_day_has_places (day : JSON) (places : list JSON) :
  Js.truthy (Home.itinerary_length (Some day)) = true ->
  Home.prop day (u "itinerary") = Some (JArr places) ->
  places <> [].
Proof.
  unfold Home.itinerary_length, Home.optional_prop.
  destruct day as [| b | m e | s | elements | members]; try discriminate.
  intros Htest Hprop. rewrite Hprop in Htest. intros ->. discriminate.
Qed.

Lemma days_with_places_le (days : list JSON) :
  (Home.days_with_places days <= length days)%nat.
Proof.
  induction days as [|day rest IH]; cbn [Home.days_with_places length]; [lia|].
  destruct (Js.truthy _); lia.
Qed.

Lemma days_with_places_take (k : nat) (days : list JSON) :
  (Home.days_with_places (take k days) <= Home.days_with_places days)%nat.
Proof.
  revert k. induction days as [|day rest IH]; intros [|k]; cbn; try lia.
  specialize (IH k). destruct (Js.truthy _); lia.
Qed.

(** What [allItineraryData] holds for each place: where it comes from,
    and the number of its day among the days that have places. *)
Lemma places_from_placed (E : engine) (days : list JSON) (index number : nat)
    (places : list Home.map_place) :
  Home.places_from E days index number = Normal places ->
  forall p, p ∈ places ->
  exists k day stops,
    Home.dayIndex p = (index + k)%nat /\
    days !! k = Some day /\
    Js.truthy (Home.itinerary_length (Some day)) = true /\
    Home.prop day (u "itinerary") = Some (JArr stops) /\
    stops !! Home.placeIndex p = Some (Home.place p) /\
    Home.dayNumber p = (number + Home.days_with_places (take k days))%nat /\
    Home.isFirstPlaceOfDay p = Nat.eqb (Home.placeIndex p) 0.
Proof.
  revert index number places.
  induction days as [|day rest IH]; intros index number places.
  - intros [= <-] p Hp. inversion Hp.
  - cbn [Home.places_from].
    assert (Hshift : forall number' later p,
              Home.places_from E rest (S index) number' = Normal later ->
              number' = (number
                         + if Js.truthy (Home.itinerary_length (Some day))
                           then 1 else 0)%nat ->
              p ∈ later ->
              exists k d stops,
                Home.dayIndex p = (index + k)%nat /\
                (day :: rest) !! k = Some d /\
                Js.truthy (Home.itinerary_length (Some d)) = true /\
                Home.prop d (u "itinerary") = Some (JArr stops) /\
                stops !! Home.placeIndex p = Some (Home.place p) /\
                Home.dayNumber p
                = (number + Home.days_with_places (take k (day :: rest)))%nat /\
                Home.isFirstPlaceOfDay p = Nat.eqb (Home.placeIndex p) 0).
    { intros number' later p Hlater -> Hp.
      destruct (IH _ _ _ Hlater p Hp) as (k & d & ps & Hi & Hk & Ht & Hq & Hpi & Hn & Hf).
      exists (S k), d, ps. cbn [take Home.days_with_places lookup list_lookup].
      repeat split; try assumption; lia. }
    destruct (Js.truthy (Home.itinerary_length (Some day))) eqn:Htest.
    + destruct (Home.prop day (u "itinerary"))
        as [[| b | m e | s | ps | ms]|] eqn:Hprop; try discriminate.
      destruct (Home.places_from E rest (S index) (S number)) as [later|] eqn:Hlater;
        [|discriminate].
      intros [= <-] p Hp. apply elem_of_app in Hp as [Hp|Hp].
      * apply list_elem_of_lookup in Hp as [i Hp].
        rewrite list_lookup_imap in Hp.
        destruct (ps !! i) as [x|] eqn:Hx; [|discriminate].
        injection Hp as <-.
        exists 0%nat, day, ps. cbn. rewrite Htest.
        repeat split; try assumption; lia.
      * apply (Hshift (S number) later); [assumption | lia | assumption].
    + intros Hlater p Hp. apply (Hshift number places); [assumption | lia | assumption].
Qed.

(** X14. Every element of [allItineraryData] is a place of a day of the
    plan, at [placeIndex] in the places of the day at [dayIndex]; its
    [dayNumber] counts the days that have places up to its own, and not
    the days of the plan: it is [dayIndex + 1] at most. *)
Theorem map_places_number_days_with_places (E : engine) (itins : list JSON)
    (places : list Home.map_place) (p : Home.map_place) :
  Home.allItineraryData E itins = Normal places ->
  p ∈ places ->
  exists day stops,
    itins !! Home.dayIndex p = Some day /\
    Home.prop day (u "itinerary") = Some (JArr stops) /\
    stops !! Home.placeIndex p = Some (Home.place p) /\
    Home.dayNumber p = S (Home.days_with_places (take (Home.dayIndex p) itins)) /\
    (1 <= Home.dayNumber p <= S (Home.dayIndex p))%nat /\
    Home.isFirstPlaceOfDay p = Nat.eqb (Home.placeIndex p) 0.
Proof.
  intros Hplaces Hp.
  destruct (places_from_placed E itins 0 1 places Hplaces p Hp)
    as (k & day & stops & Hi & Hk & _ & Hprop & Hpi & Hn & Hf).
  cbn in Hi. subst k. exists day, stops.
  pose proof (days_with_places_le (take (Home.dayIndex p) itins)) as Hle.
  rewrite length_take in Hle.
  repeat split; try assumption; lia.
Qed.
Lemma map_places_number_days_with_places_witness :
  exists p,
    p ∈ [ Home.MapPlace (JObj [(u "name", JStr (u "Kinkaku-ji"))]) 1 1 0 true ] /\
    Home.dayIndex p = 1%nat /\
    Home.dayNumber p
    = S (Home.days_with_places
           (take (Home.dayIndex p)
                 [Samples.idle_day;
                  JObj [(u "itinerary", JArr [JObj [(u "name", JStr (u "Kinkaku-ji"))]])]])).
Proof.
  eexists. split; [apply list_elem_of_here|]. split; [reflexivity|].
  destruct (map_places_number_days_with_places Samples.v8
              [Samples.idle_day;
               JObj [(u "itinerary", JArr [JObj [(u "name", JStr (u "Kinkaku-ji"))]])]]
              [ Home.MapPlace (JObj [(u "name", JStr (u "Kinkaku-ji"))]) 1 1 0 true ]
              (Home.MapPlace (JObj [(u "name", JStr (u "Kinkaku-ji"))]) 1 1 0 true))
    as (day & stops & _ & _ & _ & Hnumber & _).
  - vm_compute. reflexivity.
  - apply list_elem_of_here.
  - exact Hnumber.
Defined.

(** ** The day the map centres on *)

Lemma find_day_skip (before later : list Home.map_place) (i : Z) :
  Forall (fun p => Z.of_nat (Home.dayNumber p) <> i + 1) before ->
  Home.find_day (before ++ later) i = Home.find_day later i.
Proof.
  induction 1 as [|p before Hp _ IH]; [reflexivity|].
  cbn [app Home.find_day].
  destruct (Z.eqb_spec (Z.of_nat (Home.dayNumber p)) (i + 1)); [contradiction | exact IH].
Qed.

Lemma find_day_found (places : list Home.map_place) (i : Z) (p : Home.map_place) :
  Home.find_day places i = Some p ->
  p ∈ places /\ Z.of_nat (Home.dayNumber p) = i + 1.
Proof.
  induction places as [|x rest IH]; [discriminate|].
  cbn [Home.find_day].
  destruct (Z.eqb_spec (Z.of_nat (Home.dayNumber x)) (i + 1)) as [Heq|Hne].
  - intros [= <-]. split; [apply list_elem_of_here | assumption].
  - intros Hfind. destruct (IH Hfind) as [Hin Hn].
    split; [apply list_elem_of_further; assumption | assumption].
Qed.

(** The search over what [itins.forEach] has pushed from the day at
    [index] on: it ends on the first place of a day, or there is no day
    with places of the number looked for. *)
Lemma find_day_places_from (E : engine) (days : list JSON) (index number : nat)
    (places : list Home.map_place) (i : Z) :
  Home.places_from E days index number = Normal places ->
  match Home.find_day places i with
  | Some p => Home.placeIndex p = 0%nat
  | None =>
      ~ (Z.of_nat number <= i + 1 < Z.of_nat number + Z.of_nat (Home.days_with_places days))
  end.
Proof.
  revert index number places.
  induction days as [|day rest IH]; intros index number places.
  - intros [= <-]. cbn. lia.
  - cbn [Home.places_from Home.days_with_places].
    destruct (Js.truthy (Home.itinerary_length (Some day))) eqn:Htest.
    + destruct (Home.prop day (u "itinerary"))
        as [[| b | m e | s | ps | ms]|] eqn:Hprop; try discriminate.
      destruct (Home.places_from E rest (S index) (S number)) as [later|] eqn:Hlater;
        [|discriminate].
      intros [= <-].
      destruct (Z.eq_dec (Z.of_nat number) (i + 1)) as [Heq|Hne].
      * pose proof (tested_day_has_places day ps Htest Hprop) as Hps.
        destruct ps as [|x ps]; [contradiction|].
        cbn [imap app Home.find_day Home.dayNumber].
        apply Z.eqb_eq in Heq. rewrite Heq. reflexivity.
      * rewrite find_day_skip.
        -- specialize (IH (S index) (S number) later Hlater).
           destruct (Home.find_day later i); [assumption | lia].
        -- apply Forall_forall. intros p Hp.
           apply list_elem_of_lookup in Hp as [k Hp].
           rewrite list_lookup_imap in Hp.
           destruct (ps !! k); [|discriminate]. injection Hp as <-. exact Hne.
    + intros Hlater. specialize (IH (S index) number places Hlater).
      destruct (Home.find_day places i); [assumption | lia].
Qed.

Lemma days_with_places_before (days : list JSON) (k : nat) (day : JSON) :
  days !! k = Some day ->
  Js.truthy (Home.itinerary_length (Some day)) = true ->
  (Home.days_with_places (take k days) < Home.days_with_places days)%nat.
Proof.
  revert k. induction days as [|d rest IH]; intros [|k]; try discriminate.
  - intros [= ->] Htest. cbn. rewrite Htest. lia.
  - intros Hk Htest. cbn. specialize (IH k Hk Htest).
    destruct (Js.truthy _); lia.
Qed.

(** X15. The place that the map centres on for the chip [i], the first
    element of [allItineraryData] whose [dayNumber] is [i + 1], is the
    first place of a day of the plan: of the day that has [i] days with
    places before it, which is the day [i] of the plan or a later one. *)
Theorem map_centres_on_a_first_place (E : engine) (itins : list JSON)
    (places : list Home.map_place) (i : Z) (p : Home.map_place) :
  Home.allItineraryData E itins = Normal places ->
  Home.find_day places i = Some p ->
  exists day stops,
    itins !! Home.dayIndex p = Some day /\
    Home.prop day (u "itinerary") = Some (JArr (Home.place p :: stops)) /\
    Home.isFirstPlaceOfDay p = true /\
    i = Z.of_nat (Home.days_with_places (take (Home.dayIndex p) itins)) /\
    i <= Z.of_nat (Home.dayIndex p).
Proof.
  intros Hplaces Hfind.
  pose proof (find_day_places_from E itins 0 1 places i Hplaces) as Hfirst.
  rewrite Hfind in Hfirst.
  destruct (find_day_found places i p Hfind) as [Hin Hnumber].
  destruct (places_from_placed E itins 0 1 places Hplaces p Hin)
    as (k & day & stops & Hi & Hk & _ & Hprop & Hpi & Hn & Hf).
  cbn in Hi. subst k. rewrite Hfirst in Hpi, Hf.
  destruct stops as [|x stops]; [discriminate|]. injection Hpi as ->.
  exists day, stops.
  pose proof (days_with_places_le (take (Home.dayIndex p) itins)) as Hle.
  rewrite length_take in Hle.
  repeat split; try assumption; lia.
Qed.

(** A plan whose first day has no place: the chip of the first day
    centres the map on the second day. *)
Lemma map_centres_on_a_first_place_witness :
  exists p,
    Home.find_day
      [ Home.MapPlace (JObj [(u "name", JStr (u "Kinkaku-ji"))]) 1 1 0 true ] 0
    = Some p /\
    Home.dayIndex p = 1%nat /\
    0 <= Z.of_nat (Home.dayIndex p).
Proof.
  eexists. split; [reflexivity|]. split; [reflexivity|].
  destruct (map_centres_on_a_first_place Samples.v8
              [Samples.idle_day;
               JObj [(u "itinerary", JArr [JObj [(u "name", JStr (u "Kinkaku-ji"))]])]]
              [ Home.MapPlace (JObj [(u "name", JStr (u "Kinkaku-ji"))]) 1 1 0 true ]
              0
              (Home.MapPlace (JObj [(u "name", JStr (u "Kinkaku-ji"))]) 1 1 0 true))
    as (day & stops & _ & _ & _ & _ & Hle).
  - vm_compute. reflexivity.
  - reflexivity.
  - exact Hle.
Defined.

(** X16. The search of the map finds a place for the chip [i] exactly
    when [i] is below the number of days that have places: for the last
    chips of a plan with a day without places the map stays where it
    is. *)
Theorem map_finds_days_with_places (E : engine) (itins : list JSON)
    (places : list Home.map_place) (i : Z) :
  Home.allItineraryData E itins = Normal places ->
  is_Some (Home.find_day places i) <->
  0 <= i < Z.of_nat (Home.days_with_places itins).
Proof.
  intros Hplaces.
  pose proof (find_day_places_from E itins 0 1 places i Hplaces) as Hfirst.
  split.
  - intros [p Hfind].
    destruct (find_day_found places i p Hfind) as [Hin Hnumber].
    destruct (places_from_placed E itins 0 1 places Hplaces p Hin)
      as (k & day & stops & _ & Hk & Htest & _ & _ & Hn & _).
    pose proof (days_with_places_before itins k day Hk Htest). lia.
  - intros Hi. destruct (Home.find_day places i) as [p|]; [eauto|].
    exfalso. apply Hfirst. lia.
Qed.

Lemma map_finds_days_with_places_witness :
  is_Some (Home.find_day
             [ Home.MapPlace (JObj [(u "name", JStr (u "Kinkaku-ji"))]) 1 1 0 true ] 1)
  <-> 0 <= 1 < Z.of_nat (Home.days_with_places
                 [Samples.idle_day;
                  JObj [(u "itinerary", JArr [JObj [(u "name", JStr (u "Kinkaku-ji"))]])]]).
Proof.
  apply (map_finds_days_with_places Samples.v8
           [Samples.idle_day;
            JObj [(u "itinerary", JArr [JObj [(u "name", JStr (u "Kinkaku-ji"))]])]]).
  vm_compute. reflexivity.
Defined.

(** ** The day shown *)

Lemma conforming_day_truthy (day : JSON) :
  Schema.day_conforms day = true -> Js.truthy (Some day) = true.
Proof. destruct day; try discriminate. reflexivity. Qed.

(** X17. On a plan whose days are of the schema, a click on a day chip
    makes the effect of lines 403-420 show the day of the chip. *)
Theorem chip_click_shows_its_day (st : Home.page) (i : nat) :
  forallb Schema.day_conforms (Home.itins st) = true ->
  i ∈ Home.day_chips st ->
  exists day,
    Home.itins st !! i = Some day /\
    Home.update_day (Home.handleDayChipClick (Z.of_nat i) st) = Some day /\
    Home.selectedPlace (Home.handleDayChipClick (Z.of_nat i) st) = Some JNull.
Proof.
  intros Hdays Hchip. unfold Home.day_chips in Hchip.
  destruct (negb (Home.loading st) && (0 <? Home.days st)
            && (0 <? Z.of_nat (length (Home.itins st)))); [|inversion Hchip].
  apply elem_of_seq in Hchip as [_ Hchip]. rewrite length_take in Hchip.
  destruct (lookup_lt_is_Some_2 (Home.itins st) i) as [day Hday]; [lia|].
  exists day. split; [assumption|]. split; [|reflexivity].
  unfold Home.update_day, Home.handleDayChipClick, Home.at_index. cbn.
  assert (H0 : (0 <? Home.days st) = true) by (apply Z.ltb_lt; lia).
  assert (H1 : (0 <? Z.of_nat (length (Home.itins st))) = true) by (apply Z.ltb_lt; lia).
  assert (H2 : (Z.of_nat i <? 0) = false) by (apply Z.ltb_ge; lia).
  rewrite H0, H1, H2, Nat2Z.id, Hday. cbn [andb]. unfold Home.or_value.
  rewrite conforming_day_truthy; [reflexivity|].
  rewrite forallb_forall in Hdays. apply Hdays.
  apply list_elem_of_In, list_elem_of_lookup. eauto.
Qed.

Lemma chip_click_shows_its_day_witness :
  exists day,
    (Samples.idle_day :: Samples.one_day_plan) !! 1%nat = Some day /\
    Home.update_day
      (Home.handleDayChipClick 1
         (Home.Page (Samples.idle_day :: Samples.one_day_plan) 2 0
                    (Some JNull) (Some JNull) false))
    = Some day /\
    Home.selectedPlace
      (Home.handleDayChipClick 1
         (Home.Page (Samples.idle_day :: Samples.one_day_plan) 2 0
                    (Some JNull) (Some JNull) false))
    = Some JNull.
Proof.
  apply (chip_click_shows_its_day
           (Home.Page (Samples.idle_day :: Samples.one_day_plan) 2 0
                      (Some JNull) (Some JNull) false) 1).
  - vm_compute. reflexivity.
  - vm_compute. apply list_elem_of_further, list_elem_of_here.
Defined.

(** X18. After the submit of a complete form the page is on the first
    day of the plan it received, and the effect of lines 403-420 shows
    that day, or no day when the plan has none. *)
Theorem submit_shows_the_first_day (E : engine) (H : Home.host)
    (apiKey : option jsstring) (model : nat -> jsstring -> completion jsstring)
    (f : Home.fields) (st : Home.page) :
  Home.complete f ->
  exists out,
    Home.handleSubmit E H apiKey model f st = Some out /\
    Home.selectedDay (Home.state out) = 0 /\
    Home.update_day (Home.state out)
    = match Home.itins (Home.state out) with
      | [] => Some JNull
      | day :: _ => Some day
      end.
Proof.
  intros Hcomplete.
  destruct (submit_with_key_total E H apiKey model f st Hcomplete) as [out Hsubmit].
  exists out. split; [exact Hsubmit|]. revert Hsubmit.
  rewrite (handleSubmit_complete E H apiKey model f st Hcomplete).
  destruct (Gemini.generateItinerary _ _ _ _ _ _) as [r|] eqn:Hrun; [|discriminate].
  destruct (Js.truthy (JStr <$> apiKey)) eqn:Hkey.
  - destruct (generated_plans_conform E apiKey model _ _ _ r Hkey Hrun)
      as (plans & Hout & Hok).
    rewrite Hout. intros [= <-]. split; [reflexivity|].
    unfold Home.update_day, Home.at_index. cbn.
    destruct plans as [|day plans].
    + rewrite andb_false_r. reflexivity.
    + cbn [forallb] in Hok. apply andb_true_iff in Hok as [Hday _].
      assert (H0 : (0 <? Home.clamp (Home.Number (Home.inputDays f)) 1 21) = true)
        by (apply Z.ltb_lt; unfold Home.clamp; lia).
      rewrite H0. destruct day; try discriminate Hday. reflexivity.
  - revert Hrun. unfold Gemini.generateItinerary, Gemini.generateItinerary_within.
    rewrite Hkey. cbn. intros [= <-]. cbn. intros [= <-]. split; reflexivity.
Qed.

Lemma submit_shows_the_first_day_witness :
  exists out,
    Home.handleSubmit Samples.v8 PageSamples.ascii_host Samples.key Samples.steady
      PageSamples.kyoto_form PageSamples.new_page = Some out /\
    Home.selectedDay (Home.state out) = 0 /\
    Home.update_day (Home.state out)
    = match Home.itins (Home.state out) with
      | [] => Some JNull
      | day :: _ => Some day
      end.
Proof.
  apply (submit_shows_the_first_day Samples.v8 PageSamples.ascii_host Samples.key
           Samples.steady PageSamples.kyoto_form PageSamples.new_page).
  split; [vm_compute; discriminate|].
  split; eexists; (split; [reflexivity | lia]).
Defined.

(** ** The labels of a stop *)

(** X19. Every stop has a time of day and a duration. The times of day
    repeat every three stops, though their table has six entries, and
    the durations every six. *)
Theorem labels_repeat (index : nat) :
  is_Some (Home.getTimeOfDay index) /\
  is_Some (Home.getDuration index) /\
  Home.getTimeOfDay (index + 3) = Home.getTimeOfDay index /\
  Home.getDuration (index + 6) = Home.getDuration index.
Proof.
  unfold Home.getTimeOfDay, Home.getDuration.
  change (length Home.times) with 6%nat. change (length Home.durations) with 6%nat.
  rewrite <- (Nat.Div0.add_mod_idemp_l index 3 6).
  rewrite <- (Nat.Div0.add_mod_idemp_l index 6 6).
  pose proof (Nat.mod_upper_bound index 6) as Hr.
  destruct (index mod 6)%nat as [|[|[|[|[|[|r]]]]]]; [..|lia];
    (split; [eexists; reflexivity|]); (split; [eexists; reflexivity|]);
    split; reflexivity.
Qed.
